(** * CollectiveSelectFolder

    A shallow embedding of the XLA GPU pass
    [xla/service/gpu/transforms/collective_select_folder.cc]: a
    collective-permute fed by a select on the partition or replica id is
    rewired to one branch of the select when the predicate has the same value
    for every source id of the routing table.

    The HLO graph is an arena: a computation is the list of its instructions
    in iteration order, and an [HloInstruction*] is a position in that list. *)

From stdpp Require Import base decidable option list numbers strings gmap.
From Stdlib Require Import ZArith Lia.

Local Open Scope Z_scope.
Local Open Scope nat_scope.

(** ** HLO data model *)

(** [HloOpcode]: the opcodes the pass inspects by name, and [kOther] for every
    remaining member of the enumeration. *)
Inductive HloOpcode : Type :=
| kBroadcast
| kCollectivePermute
| kCompare
| kConstant
| kPartitionId
| kReplicaId
| kSelect
| kOther (tag : nat).

#[global] Instance HloOpcode_eq_dec : EqDecision HloOpcode.
Proof. solve_decision. Defined.

(** [Comparison::Direction] of [xla/comparison_util.h]. *)
Inductive Direction : Type := kEq | kNe | kGe | kGt | kLe | kLt.

#[global] Instance Direction_eq_dec : EqDecision Direction.
Proof. solve_decision. Defined.

(** [CollectiveOpGroupMode]: the two addressing schemes the pass names. *)
Inductive CollectiveOpGroupMode : Type := kCrossReplica | kCrossPartition.

#[global] Instance CollectiveOpGroupMode_eq_dec : EqDecision CollectiveOpGroupMode.
Proof. solve_decision. Defined.

(** [absl::Status] with a non-OK code, and [absl::StatusOr]. *)
Inductive Status : Type :=
| InvalidArgument (msg : string)
| Internal (msg : string).

Inductive StatusOr (A : Type) : Type :=
| OkValue (a : A)
| NotOk (st : Status).
Arguments OkValue {A} a.
Arguments NotOk {A} st.

(** A literal: the elements of an integral literal in storage order, or a
    literal of another element type. *)
Inductive Literal : Type :=
| IntegerLiteral (elems : list Z)
| OtherLiteral.

(** Modelled from the spec: [LiteralBase::GetFirstInteger] is not part of the
    pass's file. A single integer is extracted from a literal-bearing
    instruction, the first element if the literal has structure; extraction
    can fail. *)
Definition GetFirstInteger (l : Literal) : option Z :=
  match l with
  | IntegerLiteral (x :: _) => Some x
  | _ => None
  end.

(** An [HloInstruction*] is the position of the instruction in its
    computation. *)
Abbreviation InstId := nat.

Abbreviation SourceTargetPair := (Z * Z)%type.
Abbreviation SourceTargetPairs := (list (Z * Z)).

(** The accessors of [HloInstruction] and of its subclasses that the pass
    reads. [users] is the reverse-use list kept next to [operands]. *)
Record HloInstruction : Type := mkInst {
  opcode : HloOpcode;
  operands : list InstId;
  users : list InstId;
  direction : Direction;                    (* HloCompareInstruction *)
  literal : Literal;                        (* HloConstantInstruction *)
  channel_id : option Z;                    (* HloChannelInstruction *)
  source_target_pairs : SourceTargetPairs   (* HloCollectivePermuteInstruction *)
}.

Abbreviation HloComputation := (list HloInstruction).
Abbreviation HloModule := (list (list HloInstruction)).

Record FoldableSelect : Type := mkFoldableSelect {
  cmp_direction : Direction;
  constant_id : Z;
  collective_mode : CollectiveOpGroupMode;
  true_operand : InstId;
  false_operand : InstId
}.

(** ** Outcomes

    A call returns a value, returns a non-OK [absl::Status], or does not
    return at all: a failed [assert], or an access outside an operand list or
    outside the arena, which C++ leaves undefined. *)
Inductive Fault : Type := AssertFailed | BadAccess.

Inductive Outcome (A : Type) : Type :=
| Ok (a : A)
| Error (st : Status)
| Abort (f : Fault).
Arguments Ok {A} a.
Arguments Error {A} st.
Arguments Abort {A} f.

Definition obind {A B : Type} (m : Outcome A) (k : A -> Outcome B) : Outcome B :=
  match m with
  | Ok a => k a
  | Error st => Error st
  | Abort f => Abort f
  end.

(** A pass step over one computation: the outcome and the computation as the
    step leaves it. *)
Definition Pass (A : Type) : Type := HloComputation -> Outcome A * HloComputation.

Definition pret {A : Type} (a : A) : Pass A := fun c => (Ok a, c).

Definition pbind {A B : Type} (m : Pass A) (k : A -> Pass B) : Pass B :=
  fun c =>
    match m c with
    | (Ok a, c') => k a c'
    | (Error st, c') => (Error st, c')
    | (Abort f, c') => (Abort f, c')
    end.

(** Reading through the computation without changing it. *)
Definition pread {A : Type} (r : HloComputation -> Outcome A) : Pass A :=
  fun c => (r c, c).

Declare Scope outcome_scope.
Delimit Scope outcome_scope with outcome.
Notation "x <- m ;; k" := (obind m (fun x => k))
  (at level 100, m at next level, right associativity) : outcome_scope.

Declare Scope pass_scope.
Delimit Scope pass_scope with pass.
Notation "x <- m ;; k" := (pbind m (fun x => k))
  (at level 100, m at next level, right associativity) : pass_scope.

(** [TF_ASSIGN_OR_RETURN] on a [StatusOr]. *)
Definition of_status_or {A : Type} (s : StatusOr A) : Outcome A :=
  match s with
  | OkValue a => Ok a
  | NotOk st => Error st
  end.

(** ** Graph accessors *)

(** Dereferencing an instruction pointer. *)
Definition instruction (c : HloComputation) (p : InstId) : Outcome HloInstruction :=
  match c !! p with
  | Some i => Ok i
  | None => Abort BadAccess
  end.

(** [p->operand(k)] and [p->mutable_operand(k)]. *)
Definition operand (c : HloComputation) (p : InstId) (k : nat) : Outcome InstId :=
  (i <- instruction c p ;;
   match operands i !! k with
   | Some q => Ok q
   | None => Abort BadAccess
   end)%outcome.

(** ** The pattern matcher *)

Definition MatchFoldableSelect (c : HloComputation) (select : InstId)
  : Outcome (option FoldableSelect) :=
  (sel <- instruction c select ;;
   if negb (bool_decide (opcode sel = kSelect)) then Ok None else
   (* Match select predicate (may be broadcasted). *)
   predicate_candidate <- operand c select 0 ;;
   pc <- instruction c predicate_candidate ;;
   predicate_candidate <-
     (if bool_decide (opcode pc = kBroadcast)
      then operand c predicate_candidate 0
      else Ok predicate_candidate) ;;
   compare <- instruction c predicate_candidate ;;
   if negb (bool_decide (opcode compare = kCompare)) then Ok None else
   id_op <- operand c predicate_candidate 0 ;;
   constant_op <- operand c predicate_candidate 1 ;;
   (* Match replica-id or partition-id. *)
   id_inst <- instruction c id_op ;;
   match
     (if bool_decide (opcode id_inst = kReplicaId) then Some kCrossReplica
      else if bool_decide (opcode id_inst = kPartitionId) then Some kCrossPartition
      else None)
   with
   | None => Ok None
   | Some mode =>
     (* Match constant. *)
     constant_inst <- instruction c constant_op ;;
     if negb (bool_decide (opcode constant_inst = kConstant)) then Ok None else
     match GetFirstInteger (literal constant_inst) with
     | None => Ok None
     | Some cid =>
       t <- operand c select 1 ;;
       f <- operand c select 2 ;;
       Ok (Some (mkFoldableSelect (direction compare) cid mode t f))
     end
   end)%outcome.

(** ** The static predicate evaluator *)

(** The lambda [predicate] of the evaluator. *)
Definition predicate (select_match : FoldableSelect) (st_pair : SourceTargetPair) : bool :=
  let src_id := st_pair.1 in
  if bool_decide (cmp_direction select_match = kEq)
  then bool_decide (src_id = constant_id select_match)
  else negb (bool_decide (src_id = constant_id select_match)).

(** The [while] loop over the remaining pairs. *)
Fixpoint same_for_all (select_match : FoldableSelect) (result_candidate : bool)
    (rest : SourceTargetPairs) : option bool :=
  match rest with
  | [] => Some result_candidate
  | st_pair :: rest' =>
    if negb (eqb result_candidate (predicate select_match st_pair)) then None
    else same_for_all select_match result_candidate rest'
  end.

(** ** The rewriter *)

Definition set_operands (ops : list InstId) (i : HloInstruction) : HloInstruction :=
  mkInst (opcode i) ops (users i) (direction i) (literal i) (channel_id i)
         (source_target_pairs i).

Definition set_users (us : list InstId) (i : HloInstruction) : HloInstruction :=
  mkInst (opcode i) (operands i) us (direction i) (literal i) (channel_id i)
         (source_target_pairs i).

(** [p->RemoveUser(user)] and [p->AddUser(user)]: the user list is a set. *)
Definition RemoveUser (p user : InstId) (c : HloComputation) : HloComputation :=
  alter (fun i => set_users (filter (fun u => u <> user) (users i)) i) p c.

Definition AddUser (p user : InstId) (c : HloComputation) : HloComputation :=
  alter (fun i => if decide (user ∈ users i) then i
                  else set_users (users i ++ [user]) i) p c.

(** Modelled from the spec: [HloInstruction::ReplaceOperandWith] is not part
    of the pass's file. It is a single operand-slot update that also updates
    the reverse-use bookkeeping, so that the consumer/producer relationships
    of the graph stay consistent: the old operand loses this user unless
    another slot still holds it, the new operand gains it. The spec gives the
    rewriter no failure of its own: the status is OK whenever the slot and
    the new operand exist. *)
Definition ReplaceOperandWith (this : InstId) (operand_num : nat)
    (new_operand : InstId) : Pass unit :=
  fun c =>
    match c !! this with
    | None => (Abort BadAccess, c)
    | Some inst =>
      match operands inst !! operand_num with
      | None => (Abort BadAccess, c)
      | Some old_operand =>
        match c !! new_operand with
        | None => (Abort BadAccess, c)
        | Some _ =>
          if decide (old_operand = new_operand) then (Ok tt, c) else
          let ops' := <[operand_num := new_operand]> (operands inst) in
          let c1 := alter (set_operands ops') this c in
          let c2 := if decide (old_operand ∈ ops') then c1
                    else RemoveUser old_operand this c1 in
          (Ok tt, AddUser new_operand this c2)
        end
      end
    end.

Section Pass.

(** [NDEBUG]: [true] in a release build, where [assert] expands to nothing. *)
Variable NDEBUG : bool.

(** [GetCollectiveOpGroupMode] of [xla/service/collective_ops_utils.h], whose
    body is not part of the pass's file. *)
Variable GetCollectiveOpGroupMode :
  bool -> option bool -> StatusOr CollectiveOpGroupMode.

Definition assert (cond : bool) : Outcome unit :=
  if NDEBUG || cond then Ok tt else Abort AssertFailed.

Definition StaticallyEvaluatePredicateForAllSourceIDs
    (select_match : FoldableSelect) (pairs : SourceTargetPairs)
  : Outcome (option bool) :=
  match pairs with
  | [] => Ok None   (* If there are no pairs, the predicate is undefined. *)
  | first :: rest =>
    (_ <- assert (bool_decide (cmp_direction select_match = kEq) ||
                  bool_decide (cmp_direction select_match = kNe)) ;;
     let result_candidate := predicate select_match first in
     Ok (same_for_all select_match result_candidate rest))%outcome
  end.

(** ** Recognising the pattern and updating *)

Definition TryFoldColectivePermuteOfSelect (inst : InstId) : Pass bool :=
  (* Root op must be a collective-permute. *)
  (cp <- pread (fun c => instruction c inst) ;;
   if negb (bool_decide (opcode cp = kCollectivePermute)) then pret false else
   (* Operand must be a foldable select. *)
   operand0 <- pread (fun c => operand c inst 0) ;;
   select_match <- pread (fun c => MatchFoldableSelect c operand0) ;;
   match select_match with
   | None => pret false
   | Some select_match =>
     mode <- pread (fun _ => of_status_or
               (GetCollectiveOpGroupMode (bool_decide (is_Some (channel_id cp))) None)) ;;
     if negb (bool_decide (mode = collective_mode select_match)) then pret false else
     predicate_value <- pread (fun _ =>
        StaticallyEvaluatePredicateForAllSourceIDs select_match
          (source_target_pairs cp)) ;;
     match predicate_value with
     | None => pret false
     | Some value =>
       (* Fold select and forward the correct operand. *)
       let new_operand := if value then true_operand select_match
                          else false_operand select_match in
       _ <- ReplaceOperandWith inst 0 new_operand ;;
       pret true
     end
   end)%pass.

(** What [TryFoldColectivePermuteOfSelect] decides before it mutates
    anything, from the collective-permute and the matcher's answer on its
    operand: the instruction to forward, if any. *)
Definition fold_decision (cp : HloInstruction)
    (matched : Outcome (option FoldableSelect)) : Outcome (option InstId) :=
  (select_match <- matched ;;
   match select_match with
   | None => Ok None
   | Some select_match =>
     mode <- of_status_or
               (GetCollectiveOpGroupMode (bool_decide (is_Some (channel_id cp))) None) ;;
     if negb (bool_decide (mode = collective_mode select_match)) then Ok None else
     predicate_value <- StaticallyEvaluatePredicateForAllSourceIDs select_match
                          (source_target_pairs cp) ;;
     match predicate_value with
     | None => Ok None
     | Some value =>
       Ok (Some (if value then true_operand select_match
                 else false_operand select_match))
     end
   end)%outcome.

(** ** The pass driver *)

(** [comp->instructions()]: every instruction once, in list order. *)
Definition instructions (comp : HloComputation) : list InstId :=
  seq 0 (length comp).

(** The inner loop of [Run]. *)
Fixpoint for_each_instruction (insts : list InstId) (changed : bool) : Pass bool :=
  match insts with
  | [] => pret changed
  | inst :: rest =>
    (local_changed <- TryFoldColectivePermuteOfSelect inst ;;
     for_each_instruction rest (changed || local_changed))%pass
  end.

(** The outer loop of [Run], over [module->computations()]; the result is
    paired with the module as the loop leaves it. *)
Fixpoint for_each_computation (comps : list HloComputation) (changed : bool)
  : Outcome bool * HloModule :=
  match comps with
  | [] => (Ok changed, [])
  | comp :: rest =>
    match for_each_instruction (instructions comp) changed comp with
    | (Ok changed', comp') =>
      let '(r, rest') := for_each_computation rest changed' in (r, comp' :: rest')
    | (Error st, comp') => (Error st, comp' :: rest)
    | (Abort f, comp') => (Abort f, comp' :: rest)
    end
  end.

Definition Run (module : HloModule) (execution_threads : gset string)
  : Outcome bool * HloModule :=
  for_each_computation module false.

End Pass.

(** ** Specification-side definitions *)

(** Point-evaluation as the specification words it: true iff the direction is
    "equal" and the source id is the constant, or the direction is
    "not-equal" and the source id differs from the constant. *)
Definition spec_point_evaluation (select_match : FoldableSelect) (source_id : Z) : bool :=
  (bool_decide (cmp_direction select_match = kEq) &&
   bool_decide (source_id = constant_id select_match)) ||
  (bool_decide (cmp_direction select_match = kNe) &&
   negb (bool_decide (source_id = constant_id select_match))).

(** The condition of the evaluator's [assert]. *)
Definition valid_direction (select_match : FoldableSelect) : Prop :=
  cmp_direction select_match = kEq \/ cmp_direction select_match = kNe.

(** The select's predicate operand [p] leads to the compare [cmp]: directly,
    or through one broadcast. *)
Inductive predicate_of (c : HloComputation) (p : InstId) : InstId -> Prop :=
| predicate_direct : predicate_of c p p
| predicate_broadcast (b : HloInstruction) (cmp : InstId) :
    c !! p = Some b -> opcode b = kBroadcast -> operands b !! 0 = Some cmp ->
    predicate_of c p cmp.

(** The group mode an identity op stands for. *)
Definition id_mode (op : HloOpcode) : option CollectiveOpGroupMode :=
  match op with
  | kReplicaId => Some kCrossReplica
  | kPartitionId => Some kCrossPartition
  | _ => None
  end.

(** The shape of the comment above [MatchFoldableSelect]:
    [select(compare(id, constant), t, f)], the compare possibly under one
    broadcast, with any comparison direction. *)
Inductive foldable_shape (c : HloComputation) (select : InstId)
    (select_match : FoldableSelect) : Prop :=
| mkShape (sel compare id_inst constant_inst : HloInstruction)
    (pred cmp id_op constant_op : InstId) :
    c !! select = Some sel ->
    opcode sel = kSelect ->
    operands sel !! 0 = Some pred ->
    operands sel !! 1 = Some (true_operand select_match) ->
    operands sel !! 2 = Some (false_operand select_match) ->
    predicate_of c pred cmp ->
    c !! cmp = Some compare ->
    opcode compare = kCompare ->
    direction compare = cmp_direction select_match ->
    operands compare !! 0 = Some id_op ->
    operands compare !! 1 = Some constant_op ->
    c !! id_op = Some id_inst ->
    id_mode (opcode id_inst) = Some (collective_mode select_match) ->
    c !! constant_op = Some constant_inst ->
    opcode constant_inst = kConstant ->
    GetFirstInteger (literal constant_inst) = Some (constant_id select_match) ->
    foldable_shape c select select_match.

(** Two instructions that differ at most in their user lists. *)
Definition same_but_users (i i' : HloInstruction) : Prop :=
  opcode i' = opcode i /\ operands i' = operands i /\
  direction i' = direction i /\ literal i' = literal i /\
  channel_id i' = channel_id i /\
  source_target_pairs i' = source_target_pairs i.

(** What a run of the pass can change in an instruction: its user list, and
    its operands if it is a collective-permute. *)
Definition frame_inst (i i' : HloInstruction) : Prop :=
  opcode i' = opcode i /\ direction i' = direction i /\
  literal i' = literal i /\ channel_id i' = channel_id i /\
  source_target_pairs i' = source_target_pairs i /\
  (opcode i <> kCollectivePermute -> operands i' = operands i).

(** Position by position; nothing is added or removed. *)
Definition pass_frame (c c' : HloComputation) : Prop := Forall2 frame_inst c c'.

Definition users_frame (c c' : HloComputation) : Prop := Forall2 same_but_users c c'.

(** The reverse-use bookkeeping agrees with the operand lists. *)
Definition users_consistent (c : HloComputation) : Prop :=
  forall p u,
    (exists i, c !! p = Some i /\ u ∈ users i) <->
    (exists j, c !! u = Some j /\ p ∈ operands j).

(** No branch of a foldable select is a foldable select itself. *)
Definition no_nested_foldable (c : HloComputation) : Prop :=
  forall s select_match,
    MatchFoldableSelect c s = Ok (Some select_match) ->
    MatchFoldableSelect c (true_operand select_match) = Ok None /\
    MatchFoldableSelect c (false_operand select_match) = Ok None.

Definition is_no_match (r : Outcome (option FoldableSelect)) : bool :=
  match r with
  | Ok None => true
  | _ => false
  end.

Definition no_nested_foldableb (c : HloComputation) : bool :=
  forallb (fun s =>
    match MatchFoldableSelect c s with
    | Ok (Some select_match) =>
      is_no_match (MatchFoldableSelect c (true_operand select_match)) &&
      is_no_match (MatchFoldableSelect c (false_operand select_match))
    | _ => true
    end) (instructions c).

(** No instruction but [cp] is a collective-permute. *)
Definition only_permute (c : HloComputation) (cp : InstId) : Prop :=
  forall p i, c !! p = Some i -> p <> cp -> opcode i <> kCollectivePermute.

(** ** Concrete modules

    Instructions are written with their user lists, as a parsed module has
    them. [parameter] stands for any data-producing instruction. *)

Definition parameter : HloOpcode := kOther 0.

Definition plain (op : HloOpcode) (ops us : list InstId) : HloInstruction :=
  mkInst op ops us kEq OtherLiteral None [].

Definition compare_inst (d : Direction) (ops us : list InstId) : HloInstruction :=
  mkInst kCompare ops us d OtherLiteral None [].

Definition constant_inst (z : Z) (us : list InstId) : HloInstruction :=
  mkInst kConstant [] us kEq (IntegerLiteral [z]) None [].

Definition permute_inst (ops us : list InstId) (channel : option Z)
    (pairs : SourceTargetPairs) : HloInstruction :=
  mkInst kCollectivePermute ops us kEq OtherLiteral channel pairs.

(** A group-mode derivation for running the pass: a channel id means
    cross-partition, its absence cross-replica, and an override flag is
    refused. *)
Definition channel_group_mode (has_channel_id : bool)
    (use_global_device_ids : option bool) : StatusOr CollectiveOpGroupMode :=
  match use_global_device_ids with
  | None => OkValue (if has_channel_id then kCrossPartition else kCrossReplica)
  | Some _ => NotOk (InvalidArgument "override flag not supported")
  end.

(** A derivation that refuses a collective without channel id. *)
Definition channel_required_group_mode (has_channel_id : bool)
    (use_global_device_ids : option bool) : StatusOr CollectiveOpGroupMode :=
  if has_channel_id then OkValue kCrossPartition
  else NotOk (InvalidArgument "channel id required").

(** [select(compare(id, constant(k)), direction=d), T, F)] feeding one
    collective-permute. *)
Definition select_permute (id : HloOpcode) (d : Direction) (k : Z)
    (channel : option Z) (pairs : SourceTargetPairs) : HloComputation :=
  [ plain id [] [2];                      (* 0: the identity op *)
    constant_inst k [2];                  (* 1 *)
    compare_inst d [0; 1] [5];            (* 2 *)
    plain parameter [] [5];               (* 3: T *)
    plain parameter [] [5];               (* 4: F *)
    plain kSelect [2; 3; 4] [6];          (* 5 *)
    permute_inst [5] [] channel pairs ].  (* 6 *)

Definition uniform_true_module : HloComputation :=
  select_permute kPartitionId kNe 0 (Some 1%Z) [(1, 0); (2, 1); (3, 2)]%Z.

Definition mixed_sources_module : HloComputation :=
  select_permute kPartitionId kEq 0 (Some 1%Z) [(0, 1); (1, 2)]%Z.

Definition less_than_module : HloComputation :=
  select_permute kPartitionId kLt 0 (Some 1%Z) [(1, 0); (2, 1); (3, 2)]%Z.

Definition replica_predicate_module : HloComputation :=
  select_permute kReplicaId kNe 0 (Some 1%Z) [(1, 0); (2, 1); (3, 2)]%Z.

(** The predicate under one broadcast, and under two. *)
Definition broadcast_module : HloComputation :=
  [ plain kPartitionId [] [2];
    constant_inst 0 [2];
    compare_inst kNe [0; 1] [3];
    plain kBroadcast [2] [6];             (* 3 *)
    plain parameter [] [6];               (* 4: T *)
    plain parameter [] [6];               (* 5: F *)
    plain kSelect [3; 4; 5] [7];          (* 6 *)
    permute_inst [6] [] (Some 1%Z) [(1, 0); (2, 1); (3, 2)]%Z ].

Definition double_broadcast_module : HloComputation :=
  [ plain kPartitionId [] [2];
    constant_inst 0 [2];
    compare_inst kNe [0; 1] [3];
    plain kBroadcast [2] [4];             (* 3 *)
    plain kBroadcast [3] [7];             (* 4 *)
    plain parameter [] [7];               (* 5: T *)
    plain parameter [] [7];               (* 6: F *)
    plain kSelect [4; 5; 6] [8];          (* 7 *)
    permute_inst [7] [] (Some 1%Z) [(1, 0); (2, 1); (3, 2)]%Z ].

(** [compare(constant(0), partition-id())]: the operands swapped. *)
Definition swapped_compare_module : HloComputation :=
  [ plain kPartitionId [] [2];
    constant_inst 0 [2];
    compare_inst kNe [1; 0] [5];
    plain parameter [] [5];
    plain parameter [] [5];
    plain kSelect [2; 3; 4] [6];
    permute_inst [5] [] (Some 1%Z) [(1, 0); (2, 1); (3, 2)]%Z ].

(** A foldable select whose true branch is a foldable select. *)
Definition nested_selects_module : HloComputation :=
  [ plain kPartitionId [] [2];
    constant_inst 0 [2];
    compare_inst kNe [0; 1] [5; 7];
    plain parameter [] [5];               (* 3: A *)
    plain parameter [] [5];               (* 4: B *)
    plain kSelect [2; 3; 4] [7];          (* 5: the inner select *)
    plain parameter [] [7];               (* 6: C *)
    plain kSelect [2; 5; 6] [8];          (* 7: the outer select *)
    permute_inst [7] [] (Some 1%Z) [(1, 0)]%Z ].

(** Three collective-permutes of one select; the second has no channel id. *)
Definition three_permutes_module : HloComputation :=
  [ plain kPartitionId [] [2];
    constant_inst 0 [2];
    compare_inst kNe [0; 1] [5];
    plain parameter [] [5];
    plain parameter [] [5];
    plain kSelect [2; 3; 4] [6; 7; 8];
    permute_inst [5] [] (Some 1%Z) [(1, 0)]%Z;    (* 6 *)
    permute_inst [5] [] None [(1, 0)]%Z;          (* 7 *)
    permute_inst [5] [] (Some 2%Z) [(1, 0)]%Z ].  (* 8 *)

(** ** Well-formed graphs

    What the pass takes for granted when it indexes operand lists: the
    operand counts of the opcodes it reads, and operands that are
    instructions of the same computation. *)

Definition arity_ok (i : HloInstruction) : bool :=
  match opcode i with
  | kSelect => bool_decide (length (operands i) = 3)
  | kBroadcast => bool_decide (length (operands i) = 1)
  | kCompare => bool_decide (length (operands i) = 2)
  | kCollectivePermute => bool_decide (1 <= length (operands i))
  | _ => true
  end.

Definition well_formed_instruction (n : nat) (i : HloInstruction) : bool :=
  arity_ok i && forallb (fun q => bool_decide (q < n)) (operands i).

Definition well_formed (c : HloComputation) : bool :=
  forallb (well_formed_instruction (length c)) c.

(** [rank] orders every instruction after its operands: the graph is
    acyclic. *)
Definition topological (rank : InstId -> nat) (c : HloComputation) : Prop :=
  forall p i q, c !! p = Some i -> q ∈ operands i -> rank q < rank p.

(** Two routing tables with the same set of senders. *)
Definition same_sources (pairs pairs' : SourceTargetPairs) : Prop :=
  forall s, s ∈ pairs.*1 <-> s ∈ pairs'.*1.

(** The operand list a sweep gives an instruction, read off the computation
    as the sweep finds it: slot 0 replaced by the decided operand for a
    collective-permute that folds, the operands as they are otherwise. *)
Definition rewired_operands (NDEBUG : bool)
    (group_mode : bool -> option bool -> StatusOr CollectiveOpGroupMode)
    (c : HloComputation) (i : HloInstruction) : list InstId :=
  if bool_decide (opcode i = kCollectivePermute) then
    match operands i !! 0 with
    | Some s =>
      match fold_decision NDEBUG group_mode i (MatchFoldableSelect c s) with
      | Ok (Some new_operand) => <[0 := new_operand]> (operands i)
      | _ => operands i
      end
    | None => operands i
    end
  else operands i.

(** One select under two collective-permutes, the second without channel
    id. *)
Definition failing_second_module : HloComputation :=
  [ plain kPartitionId [] [2];
    constant_inst 0 [2];
    compare_inst kNe [0; 1] [5];
    plain parameter [] [5];
    plain parameter [] [5];
    plain kSelect [2; 3; 4] [6; 7];
    permute_inst [5] [] (Some 1%Z) [(1, 0)]%Z;    (* 6 *)
    permute_inst [5] [] None [(1, 0)]%Z ].        (* 7 *)

(** * Properties *)

(** ** The evaluator *)

Lemma predicate_valid_direction (select_match : FoldableSelect) (p : SourceTargetPair) :
  valid_direction select_match ->
  predicate select_match p = spec_point_evaluation select_match p.1.
Proof.
  unfold predicate, spec_point_evaluation.
  intros [-> | ->]; simpl; destruct (bool_decide _); reflexivity.
Qed.

Lemma predicate_not_equal (select_match : FoldableSelect) (p : SourceTargetPair) :
  cmp_direction select_match <> kEq ->
  predicate select_match p = negb (bool_decide (p.1 = constant_id select_match)).
Proof.
  intros Hne. unfold predicate.
  rewrite bool_decide_eq_false_2 by exact Hne. reflexivity.
Qed.

Lemma same_for_all_Some (select_match : FoldableSelect) (b b' : bool)
    (rest : SourceTargetPairs) :
  same_for_all select_match b rest = Some b' <->
  b' = b /\ forall p, p ∈ rest -> predicate select_match p = b.
Proof.
  induction rest as [| q rest IH]; simpl.
  - split.
    + intros [= <-]. split; [reflexivity |]. intros p Hp. inversion Hp.
    + intros [-> _]. reflexivity.
  - destruct (eqb b (predicate select_match q)) eqn:E; simpl.
    + apply eqb_prop in E. rewrite IH. split.
      * intros [-> Hall]. split; [reflexivity |].
        intros p Hp. apply elem_of_cons in Hp as [-> | Hp]; auto.
      * intros [-> Hall]. split; [reflexivity |].
        intros p Hp. apply Hall. now right.
    + split; [discriminate |]. intros [_ Hall].
      rewrite (Hall q) in E by now left.
      rewrite eqb_reflx in E. discriminate.
Qed.

Lemma same_for_all_None (select_match : FoldableSelect) (b : bool)
    (rest : SourceTargetPairs) :
  same_for_all select_match b rest = None <->
  exists p, p ∈ rest /\ predicate select_match p <> b.
Proof.
  induction rest as [| q rest IH]; simpl.
  - split; [discriminate |]. intros (p & Hp & _). inversion Hp.
  - destruct (eqb b (predicate select_match q)) eqn:E; simpl.
    + apply eqb_prop in E. rewrite IH. split.
      * intros (p & Hp & Hne). exists p. split; [now right | exact Hne].
      * intros (p & Hp & Hne). apply elem_of_cons in Hp as [-> | Hp].
        -- congruence.
        -- exists p. auto.
    + split; [| reflexivity]. intros _. exists q. split; [now left |].
      intros Heq. rewrite Heq, eqb_reflx in E. discriminate.
Qed.

Lemma same_for_all_uniform (select_match : FoldableSelect)
    (first : SourceTargetPair) (rest : SourceTargetPairs) (b : bool) :
  same_for_all select_match (predicate select_match first) rest = Some b <->
  forall p, p ∈ first :: rest -> predicate select_match p = b.
Proof.
  rewrite same_for_all_Some. split.
  - intros [-> Hall] p Hp. apply elem_of_cons in Hp as [-> | Hp]; auto.
  - intros Hall. rewrite (Hall first) by now left.
    split; [reflexivity |]. intros p Hp. apply Hall. now right.
Qed.

Lemma assert_true (NDEBUG cond : bool) : cond = true -> assert NDEBUG cond = Ok tt.
Proof. intros ->. unfold assert. now rewrite orb_true_r. Qed.

Lemma assert_release (cond : bool) : assert true cond = Ok tt.
Proof. reflexivity. Qed.

Lemma valid_direction_check (select_match : FoldableSelect) :
  valid_direction select_match <->
  bool_decide (cmp_direction select_match = kEq) ||
  bool_decide (cmp_direction select_match = kNe) = true.
Proof.
  unfold valid_direction. rewrite orb_true_iff, !bool_decide_eq_true. reflexivity.
Qed.

Lemma evaluate_valid_direction (NDEBUG : bool) (select_match : FoldableSelect)
    (first : SourceTargetPair) (rest : SourceTargetPairs) :
  valid_direction select_match ->
  StaticallyEvaluatePredicateForAllSourceIDs NDEBUG select_match (first :: rest) =
  Ok (same_for_all select_match (predicate select_match first) rest).
Proof.
  intros Hd. unfold StaticallyEvaluatePredicateForAllSourceIDs.
  rewrite assert_true by now apply valid_direction_check. reflexivity.
Qed.

(** C1. For a match record whose direction is equal or not-equal (the
    evaluator's asserted precondition and the record's invariant), the
    evaluator always returns; it returns the boolean [b] exactly when the
    routing table is non-empty and the specification's point-evaluation
    yields [b] at every source id of the table; on an empty table, and on a
    table with two sources that disagree, it returns no-fold. *)
Theorem evaluator_returns_uniform_value (NDEBUG : bool)
    (select_match : FoldableSelect) (pairs : SourceTargetPairs) :
  valid_direction select_match ->
  (exists r, StaticallyEvaluatePredicateForAllSourceIDs NDEBUG select_match pairs = Ok r) /\
  (forall b,
     StaticallyEvaluatePredicateForAllSourceIDs NDEBUG select_match pairs = Ok (Some b) <->
     pairs <> [] /\
     forall p, p ∈ pairs -> spec_point_evaluation select_match p.1 = b) /\
  (pairs = [] ->
     StaticallyEvaluatePredicateForAllSourceIDs NDEBUG select_match pairs = Ok None) /\
  (forall p q, p ∈ pairs -> q ∈ pairs ->
     spec_point_evaluation select_match p.1 <> spec_point_evaluation select_match q.1 ->
     StaticallyEvaluatePredicateForAllSourceIDs NDEBUG select_match pairs = Ok None).
Proof.
  intros Hd. destruct pairs as [| first rest].
  - split; [exists None; reflexivity |].
    split; [| split; [reflexivity |]].
    + intros b. split; [discriminate |]. intros [H _]. now contradiction H.
    + intros p q Hp. inversion Hp.
  - rewrite evaluate_valid_direction by exact Hd.
    split; [eexists; reflexivity |].
    split; [| split; [discriminate |]].
    + intros b. split.
      * intros [= H]. apply same_for_all_Some in H as [-> Hall].
        split; [discriminate |].
        intros p Hp. rewrite <- predicate_valid_direction by exact Hd.
        apply elem_of_cons in Hp as [-> | Hp]; auto.
      * intros [_ Hall]. f_equal. apply same_for_all_Some.
        assert (Hfirst : predicate select_match first = b).
        { rewrite predicate_valid_direction by exact Hd. apply Hall. now left. }
        rewrite Hfirst. split; [reflexivity |].
        intros p Hp. rewrite predicate_valid_direction by exact Hd.
        apply Hall. now right.
    + intros p q Hp Hq Hne. f_equal. apply same_for_all_None.
      rewrite <- !predicate_valid_direction in Hne by exact Hd.
      destruct (decide (predicate select_match p = predicate select_match first))
        as [Ep | Np].
      * exists q. split.
        -- apply elem_of_cons in Hq as [-> | Hq]; [congruence | exact Hq].
        -- congruence.
      * exists p. split; [| exact Np].
        apply elem_of_cons in Hp as [-> | Hp]; [congruence | exact Hp].
Qed.

(** ** The matcher *)

Lemma instruction_Some (c : HloComputation) (p : InstId) (i : HloInstruction) :
  c !! p = Some i -> instruction c p = Ok i.
Proof. unfold instruction. now intros ->. Qed.

Lemma operand_Some (c : HloComputation) (p q : InstId) (k : nat) (i : HloInstruction) :
  c !! p = Some i -> operands i !! k = Some q -> operand c p k = Ok q.
Proof. unfold operand, instruction. intros -> H. simpl. now rewrite H. Qed.

Lemma instruction_Ok (c : HloComputation) (p : InstId) (i : HloInstruction) :
  instruction c p = Ok i -> c !! p = Some i.
Proof. unfold instruction. destruct (c !! p); now intros [= ->]. Qed.

Lemma operand_Ok (c : HloComputation) (p q : InstId) (k : nat) :
  operand c p k = Ok q ->
  exists i, c !! p = Some i /\ operands i !! k = Some q.
Proof.
  unfold operand, instruction. destruct (c !! p) as [i |]; simpl; [| discriminate].
  destruct (operands i !! k) eqn:E; [| discriminate].
  intros [= ->]. eauto.
Qed.

Lemma id_mode_chain (op : HloOpcode) :
  (if bool_decide (op = kReplicaId) then Some kCrossReplica
   else if bool_decide (op = kPartitionId) then Some kCrossPartition
   else None) = id_mode op.
Proof. destruct op; reflexivity. Qed.

(** The matcher accepts the shape, whatever the direction of the compare. *)
Lemma MatchFoldableSelect_complete (c : HloComputation) (select : InstId)
    (select_match : FoldableSelect) :
  foldable_shape c select select_match ->
  MatchFoldableSelect c select = Ok (Some select_match).
Proof.
  intros [sel compare id_inst k_inst pred cmp id_op k_op
          Hsel Hop H0 H1 H2 Hpred Hcmp Hcop Hdir Hc0 Hc1 Hid Hmode Hk Hkop Hval].
  unfold MatchFoldableSelect.
  rewrite (instruction_Some _ _ _ Hsel). simpl.
  rewrite Hop. simpl.
  rewrite (operand_Some _ _ _ _ _ Hsel H0). simpl.
  assert (Hunwrap :
    (pc <- instruction c pred ;;
     (if bool_decide (opcode pc = kBroadcast) then operand c pred 0 else Ok pred))%outcome
    = Ok cmp).
  { destruct Hpred as [| b cmp Hb Hbop Hb0].
    - rewrite (instruction_Some _ _ _ Hcmp). simpl. now rewrite Hcop.
    - rewrite (instruction_Some _ _ _ Hb). simpl. rewrite Hbop. simpl.
      apply (operand_Some _ _ _ _ _ Hb Hb0). }
  destruct (instruction c pred) as [pc | |]; simpl in Hunwrap; try discriminate.
  simpl. rewrite Hunwrap. simpl.
  rewrite (instruction_Some _ _ _ Hcmp). simpl. rewrite Hcop. simpl.
  rewrite (operand_Some _ _ _ _ _ Hcmp Hc0). simpl.
  rewrite (operand_Some _ _ _ _ _ Hcmp Hc1). simpl.
  rewrite (instruction_Some _ _ _ Hid). simpl.
  rewrite id_mode_chain, Hmode.
  rewrite (instruction_Some _ _ _ Hk). simpl. rewrite Hkop. simpl.
  rewrite Hval.
  rewrite (operand_Some _ _ _ _ _ Hsel H1). simpl.
  rewrite (operand_Some _ _ _ _ _ Hsel H2). simpl.
  rewrite Hdir. destruct select_match. reflexivity.
Qed.

(** The matcher accepts nothing but the shape. *)
Lemma id_mode_Some_inv (op : HloOpcode) (mode : CollectiveOpGroupMode) :
  (if bool_decide (op = kReplicaId) then Some kCrossReplica
   else if bool_decide (op = kPartitionId) then Some kCrossPartition
   else None) = Some mode -> id_mode op = Some mode.
Proof. now rewrite id_mode_chain. Qed.

Lemma MatchFoldableSelect_sound (c : HloComputation) (select : InstId)
    (select_match : FoldableSelect) :
  MatchFoldableSelect c select = Ok (Some select_match) ->
  foldable_shape c select select_match.
Proof.
  unfold MatchFoldableSelect.
  destruct (instruction c select) as [sel | |] eqn:Hsel; cbn [obind]; try discriminate.
  destruct (bool_decide (opcode sel = kSelect)) eqn:Hop; cbn [negb]; [| discriminate].
  destruct (operand c select 0) as [pred | |] eqn:H0; cbn [obind]; try discriminate.
  destruct (instruction c pred) as [pc | |] eqn:Hpc; cbn [obind]; try discriminate.
  destruct (if bool_decide (opcode pc = kBroadcast) then operand c pred 0 else Ok pred)
    as [cmp | |] eqn:Hunwrap; cbn [obind]; try discriminate.
  destruct (instruction c cmp) as [cmpi | |] eqn:Hcmp; cbn [obind]; try discriminate.
  destruct (bool_decide (opcode cmpi = kCompare)) eqn:Hcop; cbn [negb]; [| discriminate].
  destruct (operand c cmp 0) as [id_op | |] eqn:Hc0; cbn [obind]; try discriminate.
  destruct (operand c cmp 1) as [k_op | |] eqn:Hc1; cbn [obind]; try discriminate.
  destruct (instruction c id_op) as [id_inst | |] eqn:Hid; cbn [obind]; try discriminate.
  destruct (if bool_decide (opcode id_inst = kReplicaId) then _ else _)
    as [mode |] eqn:Hmode; [| discriminate].
  destruct (instruction c k_op) as [k | |] eqn:Hk; cbn [obind]; try discriminate.
  destruct (bool_decide (opcode k = kConstant)) eqn:Hkop; cbn [negb]; [| discriminate].
  destruct (GetFirstInteger (literal k)) as [cid |] eqn:Hval; [| discriminate].
  destruct (operand c select 1) as [t | |] eqn:H1; cbn [obind]; try discriminate.
  destruct (operand c select 2) as [f | |] eqn:H2; cbn [obind]; try discriminate.
  intros [= <-].
  apply instruction_Ok in Hsel, Hpc, Hcmp, Hid, Hk.
  apply bool_decide_eq_true in Hop, Hcop, Hkop.
  apply operand_Ok in H0 as (sel0 & Hs0 & H0).
  apply operand_Ok in H1 as (sel1 & Hs1 & H1).
  apply operand_Ok in H2 as (sel2 & Hs2 & H2).
  apply operand_Ok in Hc0 as (cmp0 & Hcc0 & Hc0).
  apply operand_Ok in Hc1 as (cmp1 & Hcc1 & Hc1).
  assert (sel0 = sel) as -> by congruence.
  assert (sel1 = sel) as -> by congruence.
  assert (sel2 = sel) as -> by congruence.
  assert (cmp0 = cmpi) as -> by congruence.
  assert (cmp1 = cmpi) as -> by congruence.
  apply (mkShape c select _ sel cmpi id_inst k pred cmp id_op k_op); simpl; auto.
  - destruct (bool_decide (opcode pc = kBroadcast)) eqn:Hb.
    + apply bool_decide_eq_true in Hb.
      apply operand_Ok in Hunwrap as (pc' & Hpc' & Hp0).
      assert (pc' = pc) as -> by congruence.
      eapply predicate_broadcast; eassumption.
    + injection Hunwrap as <-. apply predicate_direct.
  - now apply id_mode_Some_inv.
Qed.

(** The matcher reads nothing that a run of the pass changes. *)
Lemma pass_frame_lookup (c c' : HloComputation) (p : InstId) :
  pass_frame c c' ->
  (c !! p = None /\ c' !! p = None) \/
  (exists i i', c !! p = Some i /\ c' !! p = Some i' /\ frame_inst i i').
Proof.
  intros Hf. destruct (c !! p) as [i |] eqn:E.
  - right. destruct (Forall2_lookup_l _ _ _ _ _ Hf E) as (i' & Hi' & Hrel). eauto.
  - left. split; [reflexivity |].
    apply lookup_ge_None. rewrite <- (Forall2_length _ _ _ Hf).
    now apply lookup_ge_None.
Qed.

Ltac frame_at Hf p i i' Hi Hi' Hop Hdir Hlit Hops :=
  destruct (pass_frame_lookup _ _ p Hf)
    as [[Hi Hi'] | (i & i' & Hi & Hi' & Hop & Hdir & Hlit & _ & _ & Hops)];
  rewrite Hi, Hi'; simpl; [reflexivity |]; rewrite ?Hop.

Ltac frame_opcode Hops op :=
  let E := fresh "E" in
  destruct (bool_decide (_ = op)) eqn:E; simpl;
  [apply bool_decide_eq_true in E; rewrite Hops by (rewrite E; discriminate)
  | try reflexivity].

Ltac match_tail Hf cmpi Hcops Hcdir :=
  let id_op := fresh "id_op" in
  let constant_op := fresh "constant_op" in
  let mode := fresh "mode" in
  let x := fresh "x" in let x' := fresh "x'" in
  let y := fresh "y" in let y' := fresh "y'" in
  let Hx := fresh in let Hx' := fresh in let Hy := fresh in let Hy' := fresh in
  let H1 := fresh in let H2 := fresh in let H3 := fresh in let H4 := fresh in
  let H5 := fresh in let H6 := fresh in let H7 := fresh in let H8 := fresh in
  frame_opcode Hcops kCompare;
  rewrite Hcdir;
  destruct (operands cmpi !! 0) as [id_op |]; simpl; [| reflexivity];
  destruct (operands cmpi !! 1) as [constant_op |]; simpl; [| reflexivity];
  frame_at Hf id_op x x' Hx Hx' H1 H2 H3 H4;
  destruct (if bool_decide (opcode x = kReplicaId) then _ else _) as [mode |];
    [| reflexivity];
  frame_at Hf constant_op y y' Hy Hy' H5 H6 H7 H8;
  rewrite H7; reflexivity.

Lemma MatchFoldableSelect_frame (c c' : HloComputation) (select : InstId) :
  pass_frame c c' ->
  MatchFoldableSelect c' select = MatchFoldableSelect c select.
Proof.
  intros Hf. unfold MatchFoldableSelect, operand, instruction.
  frame_at Hf select sel sel' Hs Hs' Hop Hdir Hlit Hops.
  frame_opcode Hops kSelect.
  destruct (operands sel !! 0) as [pred |]; simpl; [| reflexivity].
  frame_at Hf pred pc pc' Hp Hp' Hpop Hpdir Hplit Hpops.
  frame_opcode Hpops kBroadcast.
  - destruct (operands pc !! 0) as [cmp |]; simpl; [| reflexivity].
    frame_at Hf cmp cmpi cmpi' Hc Hc' Hcop Hcdir Hclit Hcops.
    match_tail Hf cmpi Hcops Hcdir.
  - rewrite Hp, Hp'. simpl. rewrite Hpop.
    match_tail Hf pc Hpops Hpdir.
Qed.

(** ** The rewriter *)

Lemma same_but_users_refl (i : HloInstruction) : same_but_users i i.
Proof. repeat split. Qed.

Lemma same_but_users_trans (i j k : HloInstruction) :
  same_but_users i j -> same_but_users j k -> same_but_users i k.
Proof. unfold same_but_users. intuition congruence. Qed.

Lemma same_but_users_set_users (us : list InstId) (i : HloInstruction) :
  same_but_users i (set_users us i).
Proof. repeat split. Qed.

Lemma same_but_users_frame (i i' : HloInstruction) :
  same_but_users i i' -> frame_inst i i'.
Proof. unfold same_but_users, frame_inst. intuition. Qed.

Lemma frame_inst_refl (i : HloInstruction) : frame_inst i i.
Proof. repeat split. Qed.

Lemma frame_inst_trans (i j k : HloInstruction) :
  frame_inst i j -> frame_inst j k -> frame_inst i k.
Proof.
  unfold frame_inst.
  intros (Ho & Hd & Hl & Hc & Hs & Hops) (Ho' & Hd' & Hl' & Hc' & Hs' & Hops').
  repeat split; try congruence.
  intros Hne. rewrite Hops' by congruence. now apply Hops.
Qed.

Lemma users_frame_refl (c : HloComputation) : users_frame c c.
Proof.
  apply Forall2_same_length_lookup_2; [reflexivity |].
  intros p x y Hx Hy. assert (x = y) as -> by congruence.
  apply same_but_users_refl.
Qed.

Lemma users_frame_trans (c1 c2 c3 : HloComputation) :
  users_frame c1 c2 -> users_frame c2 c3 -> users_frame c1 c3.
Proof. apply Forall2_trans. exact same_but_users_trans. Qed.

Lemma pass_frame_refl (c : HloComputation) : pass_frame c c.
Proof.
  apply Forall2_same_length_lookup_2; [reflexivity |].
  intros p x y Hx Hy. assert (x = y) as -> by congruence.
  apply frame_inst_refl.
Qed.

Lemma pass_frame_trans (c1 c2 c3 : HloComputation) :
  pass_frame c1 c2 -> pass_frame c2 c3 -> pass_frame c1 c3.
Proof. apply Forall2_trans. exact frame_inst_trans. Qed.

Lemma users_frame_pass_frame (c c' : HloComputation) :
  users_frame c c' -> pass_frame c c'.
Proof.
  intros H. eapply Forall2_impl; [exact H | exact same_but_users_frame].
Qed.

Lemma users_frame_RemoveUser (p user : InstId) (c : HloComputation) :
  users_frame c (RemoveUser p user c).
Proof.
  apply Forall2_alter_r; [apply users_frame_refl |].
  intros x y _ _ H. eapply same_but_users_trans; [exact H |].
  apply same_but_users_set_users.
Qed.

Lemma users_frame_AddUser (p user : InstId) (c : HloComputation) :
  users_frame c (AddUser p user c).
Proof.
  apply Forall2_alter_r; [apply users_frame_refl |].
  intros x y _ _ H. destruct (decide (user ∈ users y)); [exact H |].
  eapply same_but_users_trans; [exact H |]. apply same_but_users_set_users.
Qed.

(** The rewriter either faults before touching anything, or returns OK with
    the slot replaced and, apart from user lists, nothing else changed. *)
Lemma ReplaceOperandWith_cases (this : InstId) (operand_num : nat)
    (new_operand : InstId) (c : HloComputation) :
  ReplaceOperandWith this operand_num new_operand c = (Abort BadAccess, c) \/
  exists inst c',
    c !! this = Some inst /\ is_Some (operands inst !! operand_num) /\
    is_Some (c !! new_operand) /\
    ReplaceOperandWith this operand_num new_operand c = (Ok tt, c') /\
    users_frame
      (alter (set_operands (<[operand_num := new_operand]> (operands inst))) this c) c'.
Proof.
  unfold ReplaceOperandWith.
  destruct (c !! this) as [inst |] eqn:Hthis; [| now left].
  destruct (operands inst !! operand_num) as [old |] eqn:Hold; [| now left].
  destruct (c !! new_operand) as [n |] eqn:Hnew; [| now left].
  right. exists inst.
  destruct (decide (old = new_operand)) as [-> | Hne].
  - exists c. split; [reflexivity |].
    split; [eauto |]. split; [eauto |]. split; [reflexivity |].
    rewrite list_insert_id by exact Hold.
    apply Forall2_alter_l; [apply users_frame_refl |].
    intros x y Hx Hy _. assert (x = inst) as -> by congruence.
    assert (y = inst) as -> by congruence.
    repeat split.
  - eexists. split; [reflexivity |].
    split; [eauto |]. split; [eauto |]. split; [reflexivity |].
    eapply users_frame_trans; [| apply users_frame_AddUser].
    destruct (decide (old ∈ _)); [apply users_frame_refl |].
    apply users_frame_RemoveUser.
Qed.

Lemma ReplaceOperandWith_Ok (this : InstId) (operand_num : nat)
    (new_operand old : InstId) (inst : HloInstruction) (c : HloComputation) :
  c !! this = Some inst -> operands inst !! operand_num = Some old ->
  is_Some (c !! new_operand) ->
  exists c',
    ReplaceOperandWith this operand_num new_operand c = (Ok tt, c') /\
    users_frame
      (alter (set_operands (<[operand_num := new_operand]> (operands inst))) this c) c'.
Proof.
  intros Hthis Hold [n Hnew].
  destruct (ReplaceOperandWith_cases this operand_num new_operand c)
    as [Hab | (inst' & c' & Hthis' & _ & _ & Hrun & Hfr)].
  - unfold ReplaceOperandWith in Hab. rewrite Hthis, Hold, Hnew in Hab.
    destruct (decide _); discriminate.
  - assert (inst' = inst) as -> by congruence. eauto.
Qed.

(** ** One candidate *)

Section PassProperties.

Variable NDEBUG : bool.
Variable GetCollectiveOpGroupMode :
  bool -> option bool -> StatusOr CollectiveOpGroupMode.

Local Abbreviation TryFold := (TryFoldColectivePermuteOfSelect NDEBUG GetCollectiveOpGroupMode).
Local Abbreviation decision := (fold_decision NDEBUG GetCollectiveOpGroupMode).
Local Abbreviation loop := (for_each_instruction NDEBUG GetCollectiveOpGroupMode).
Local Abbreviation RunPass := (Run NDEBUG GetCollectiveOpGroupMode).

Lemma TryFold_dangling (c : HloComputation) (p : InstId) :
  c !! p = None -> TryFold p c = (Abort BadAccess, c).
Proof.
  intros H. unfold TryFoldColectivePermuteOfSelect, pbind, pread, instruction.
  now rewrite H.
Qed.

Lemma TryFold_not_permute (c : HloComputation) (p : InstId) (i : HloInstruction) :
  c !! p = Some i -> opcode i <> kCollectivePermute ->
  TryFold p c = (Ok false, c).
Proof.
  intros H Hop. unfold TryFoldColectivePermuteOfSelect, pbind, pread, instruction.
  rewrite H. now rewrite bool_decide_eq_false_2 by exact Hop.
Qed.

Lemma TryFold_no_operand (c : HloComputation) (p : InstId) (cp : HloInstruction) :
  c !! p = Some cp -> opcode cp = kCollectivePermute -> operands cp !! 0 = None ->
  TryFold p c = (Abort BadAccess, c).
Proof.
  intros H Hop H0.
  unfold TryFoldColectivePermuteOfSelect, pbind, pread, operand, instruction.
  rewrite H. rewrite bool_decide_eq_true_2 by exact Hop. cbn [negb obind].
  rewrite H. cbn [obind]. now rewrite H0.
Qed.

(** On a collective-permute the step is its decision followed, if there is
    something to forward, by the rewriter. *)
Lemma TryFold_decision (c : HloComputation) (p s : InstId) (cp : HloInstruction) :
  c !! p = Some cp -> opcode cp = kCollectivePermute -> operands cp !! 0 = Some s ->
  TryFold p c =
  match decision cp (MatchFoldableSelect c s) with
  | Ok None => (Ok false, c)
  | Ok (Some new_operand) =>
    match ReplaceOperandWith p 0 new_operand c with
    | (Ok _, c') => (Ok true, c')
    | (Error st, c') => (Error st, c')
    | (Abort f, c') => (Abort f, c')
    end
  | Error st => (Error st, c)
  | Abort f => (Abort f, c)
  end.
Proof.
  intros H Hop H0.
  unfold TryFoldColectivePermuteOfSelect, fold_decision, pbind, pread, pret,
    operand, instruction.
  rewrite H. rewrite bool_decide_eq_true_2 by exact Hop. cbn [negb obind].
  rewrite H. cbn [obind]. rewrite H0.
  destruct (MatchFoldableSelect c s) as [[select_match |] | |]; simpl; try reflexivity.
  destruct (GetCollectiveOpGroupMode _ None) as [mode |]; simpl; [| reflexivity].
  destruct (bool_decide (mode = _)); simpl; [| reflexivity].
  destruct (StaticallyEvaluatePredicateForAllSourceIDs _ _ _) as [[value |] | |];
    simpl; reflexivity.
Qed.

Lemma decision_Some (cp : HloInstruction) (matched : Outcome (option FoldableSelect))
    (new_operand : InstId) :
  decision cp matched = Ok (Some new_operand) ->
  exists select_match,
    matched = Ok (Some select_match) /\
    (new_operand = true_operand select_match \/
     new_operand = false_operand select_match).
Proof.
  unfold fold_decision.
  destruct matched as [[select_match |] | |]; simpl; try discriminate.
  destruct (GetCollectiveOpGroupMode _ None) as [mode |]; simpl; [| discriminate].
  destruct (bool_decide (mode = _)); simpl; [| discriminate].
  destruct (StaticallyEvaluatePredicateForAllSourceIDs _ _ _) as [[value |] | |];
    simpl; try discriminate.
  intros [= <-]. exists select_match. split; [reflexivity |].
  destruct value; auto.
Qed.

Lemma decision_frame (cp cp' : HloInstruction)
    (matched : Outcome (option FoldableSelect)) :
  frame_inst cp cp' -> decision cp' matched = decision cp matched.
Proof.
  intros (_ & _ & _ & Hch & Hst & _). unfold fold_decision.
  now rewrite Hch, Hst.
Qed.

(** A step that does not report a rewrite leaves the computation as it
    was; a step that reports one has forwarded the decided operand. *)
Lemma TryFold_cases (c c' : HloComputation) (p : InstId) (r : Outcome bool) :
  TryFold p c = (r, c') ->
  (r <> Ok true /\ c' = c) \/
  (exists cp s new_operand,
     r = Ok true /\ c !! p = Some cp /\ opcode cp = kCollectivePermute /\
     operands cp !! 0 = Some s /\
     decision cp (MatchFoldableSelect c s) = Ok (Some new_operand) /\
     is_Some (c !! new_operand) /\
     ReplaceOperandWith p 0 new_operand c = (Ok tt, c') /\
     users_frame (alter (set_operands (<[0 := new_operand]> (operands cp))) p c) c').
Proof.
  intros Hrun. destruct (c !! p) as [cp |] eqn:Hp.
  2:{ rewrite TryFold_dangling in Hrun by exact Hp. injection Hrun as <- <-.
      left. split; [discriminate | reflexivity]. }
  destruct (decide (opcode cp = kCollectivePermute)) as [Hop | Hop].
  2:{ rewrite (TryFold_not_permute _ _ _ Hp Hop) in Hrun. injection Hrun as <- <-.
      left. split; [discriminate | reflexivity]. }
  destruct (operands cp !! 0) as [s |] eqn:H0.
  2:{ rewrite (TryFold_no_operand _ _ _ Hp Hop H0) in Hrun. injection Hrun as <- <-.
      left. split; [discriminate | reflexivity]. }
  rewrite (TryFold_decision _ _ _ _ Hp Hop H0) in Hrun.
  destruct (decision cp (MatchFoldableSelect c s)) as [[new_operand |] | |] eqn:Hd;
    try (injection Hrun as <- <-; left; split; [discriminate | reflexivity]).
  destruct (ReplaceOperandWith_cases p 0 new_operand c)
    as [Hab | (inst & c1 & Hthis & _ & Hnew & Hrep & Hfr)].
  - rewrite Hab in Hrun. injection Hrun as <- <-.
    left. split; [discriminate | reflexivity].
  - rewrite Hrep in Hrun. injection Hrun as <- <-.
    assert (inst = cp) as -> by congruence.
    right. exists cp, s, new_operand. repeat split; auto.
Qed.

Lemma frame_inst_set_operands (ops : list InstId) (cp : HloInstruction) :
  opcode cp = kCollectivePermute -> frame_inst cp (set_operands ops cp).
Proof. intros Hop. repeat split. intros Hne. now contradiction Hne. Qed.

Lemma TryFold_frame (c c' : HloComputation) (p : InstId) (r : Outcome bool) :
  TryFold p c = (r, c') -> pass_frame c c'.
Proof.
  intros Hrun.
  destruct (TryFold_cases _ _ _ _ Hrun)
    as [[_ ->] | (cp & s & n & _ & Hp & Hop & _ & _ & _ & _ & Hfr)].
  - apply pass_frame_refl.
  - eapply pass_frame_trans; [| apply users_frame_pass_frame; exact Hfr].
    apply Forall2_alter_r; [apply pass_frame_refl |].
    intros x y Hx Hy Hxy.
    assert (y = cp) as -> by congruence.
    eapply frame_inst_trans; [exact Hxy |].
    now apply frame_inst_set_operands.
Qed.

(** A step on [p] changes at most the user list of another instruction. *)
Lemma TryFold_other (c c' : HloComputation) (p q : InstId) (r : Outcome bool)
    (j : HloInstruction) :
  TryFold p c = (r, c') -> q <> p -> c !! q = Some j ->
  exists j', c' !! q = Some j' /\ same_but_users j j'.
Proof.
  intros Hrun Hne Hq.
  destruct (TryFold_cases _ _ _ _ Hrun)
    as [[_ ->] | (cp & s & n & _ & Hp & Hop & _ & _ & _ & _ & Hfr)].
  - exists j. split; [exact Hq | apply same_but_users_refl].
  - eapply Forall2_lookup_l; [exact Hfr |].
    rewrite list_lookup_alter_ne by congruence. exact Hq.
Qed.

(** The instruction of a reported rewrite afterwards holds the decided
    operand in slot 0 and is otherwise, apart from its user list, as before. *)
Lemma TryFold_rewritten (c c' : HloComputation) (p : InstId) :
  TryFold p c = (Ok true, c') ->
  exists cp s new_operand cp',
    c !! p = Some cp /\ opcode cp = kCollectivePermute /\
    operands cp !! 0 = Some s /\
    decision cp (MatchFoldableSelect c s) = Ok (Some new_operand) /\
    c' !! p = Some cp' /\
    same_but_users (set_operands (<[0 := new_operand]> (operands cp)) cp) cp'.
Proof.
  intros Hrun.
  destruct (TryFold_cases _ _ _ _ Hrun)
    as [[Hne _] | (cp & s & n & _ & Hp & Hop & H0 & Hd & _ & _ & Hfr)].
  - now contradiction Hne.
  - assert (Hlk : alter (set_operands (<[0 := n]> (operands cp))) p c !! p =
                  Some (set_operands (<[0 := n]> (operands cp)) cp)).
    { rewrite list_lookup_alter_eq, Hp. reflexivity. }
    destruct (Forall2_lookup_l _ _ _ _ _ Hfr Hlk) as (cp' & Hcp' & Hrel).
    exists cp, s, n, cp'. auto 10.
Qed.

Lemma no_nested_foldable_frame (c c' : HloComputation) :
  pass_frame c c' -> no_nested_foldable c -> no_nested_foldable c'.
Proof.
  intros Hf Hnn s select_match.
  rewrite !(MatchFoldableSelect_frame _ _ _ Hf). apply Hnn.
Qed.

(** After its own step a candidate no longer matches, if no branch of a
    foldable select is foldable. *)
Lemma TryFold_settled (c c1 : HloComputation) (p : InstId) (b : bool) :
  no_nested_foldable c ->
  TryFold p c = (Ok b, c1) -> TryFold p c1 = (Ok false, c1).
Proof.
  intros Hnn Hrun. destruct b.
  - pose proof (TryFold_frame _ _ _ _ Hrun) as Hf.
    destruct (TryFold_rewritten _ _ _ Hrun)
      as (cp & s & n & cp' & Hp & Hop & H0 & Hd & Hp' & Ho' & Hops' & _ & _ & Hch' & Hst').
    simpl in Ho', Hops', Hch', Hst'.
    assert (H0' : operands cp' !! 0 = Some n).
    { rewrite Hops'. apply list_lookup_insert_eq.
      apply lookup_lt_Some in H0. exact H0. }
    rewrite (TryFold_decision c1 p n cp') by congruence.
    rewrite (MatchFoldableSelect_frame _ _ _ Hf).
    destruct (decision_Some _ _ _ Hd) as (select_match & Hm & Hn).
    destruct (Hnn _ _ Hm) as [Ht Hfalse].
    destruct Hn as [-> | ->]; [rewrite Ht | rewrite Hfalse]; reflexivity.
  - destruct (TryFold_cases _ _ _ _ Hrun) as [[_ ->] | (cp & s & n & Hr & _)].
    + exact Hrun.
    + discriminate.
Qed.

(** A settled candidate stays settled while only user lists and other
    collective-permutes change. *)
Lemma TryFold_settled_stable (c c' : HloComputation) (p : InstId) :
  TryFold p c = (Ok false, c) ->
  pass_frame c c' ->
  (forall j, c !! p = Some j -> exists j', c' !! p = Some j' /\ same_but_users j j') ->
  TryFold p c' = (Ok false, c').
Proof.
  intros Hrun Hf Hsame.
  destruct (c !! p) as [j |] eqn:Hp.
  2:{ rewrite TryFold_dangling in Hrun by exact Hp. discriminate. }
  destruct (Hsame j eq_refl) as (j' & Hp' & Ho & Hops & _ & _ & Hch & Hst).
  destruct (decide (opcode j = kCollectivePermute)) as [Hop | Hop].
  2:{ apply (TryFold_not_permute _ _ j'); [exact Hp' | congruence]. }
  destruct (operands j !! 0) as [s |] eqn:H0.
  2:{ rewrite (TryFold_no_operand _ _ _ Hp Hop H0) in Hrun. discriminate. }
  rewrite (TryFold_decision _ _ _ _ Hp Hop H0) in Hrun.
  rewrite (TryFold_decision c' p s j') by congruence.
  rewrite (MatchFoldableSelect_frame _ _ _ Hf).
  assert (Hdec : decision j' (MatchFoldableSelect c s) =
                 decision j (MatchFoldableSelect c s)).
  { unfold fold_decision. now rewrite Hch, Hst. }
  rewrite Hdec.
  destruct (decision j (MatchFoldableSelect c s)) as [[n |] | |];
    try discriminate; [| reflexivity].
  destruct (ReplaceOperandWith p 0 n c) as [[[] | |] c2]; discriminate.
Qed.

(** ** The loops *)

Lemma loop_cons (p : InstId) (rest : list InstId) (changed : bool) (c : HloComputation) :
  loop (p :: rest) changed c =
  match TryFold p c with
  | (Ok local_changed, c') => loop rest (changed || local_changed) c'
  | (Error st, c') => (Error st, c')
  | (Abort f, c') => (Abort f, c')
  end.
Proof. reflexivity. Qed.

Lemma loop_app (pre post : list InstId) (changed : bool) (c : HloComputation) :
  loop (pre ++ post) changed c =
  match loop pre changed c with
  | (Ok changed', c') => loop post changed' c'
  | (Error st, c') => (Error st, c')
  | (Abort f, c') => (Abort f, c')
  end.
Proof.
  revert changed c. induction pre as [| p pre IH]; intros changed c.
  - reflexivity.
  - rewrite <- app_comm_cons, !loop_cons.
    destruct (TryFold p c) as [[b | st | f] c1]; [apply IH | reflexivity | reflexivity].
Qed.

(** Candidates that do not match leave the flag and the computation alone. *)
Lemma loop_settled (ids : list InstId) (changed : bool) (c : HloComputation) :
  (forall p, p ∈ ids -> TryFold p c = (Ok false, c)) ->
  loop ids changed c = (Ok changed, c).
Proof.
  revert changed. induction ids as [| p rest IH]; intros changed Hall.
  - reflexivity.
  - rewrite loop_cons, (Hall p) by now left.
    rewrite orb_false_r. apply IH. intros q Hq. apply Hall. now right.
Qed.

Lemma loop_frame (ids : list InstId) (changed : bool) (c c' : HloComputation)
    (r : Outcome bool) :
  loop ids changed c = (r, c') ->
  pass_frame c c' /\
  forall q j, q ∉ ids -> c !! q = Some j ->
    exists j', c' !! q = Some j' /\ same_but_users j j'.
Proof.
  revert changed c. induction ids as [| p rest IH]; intros changed c Hrun.
  - injection Hrun as <- <-. split; [apply pass_frame_refl |].
    intros q j _ Hq. exists j. split; [exact Hq | apply same_but_users_refl].
  - rewrite loop_cons in Hrun.
    destruct (TryFold p c) as [r1 c1] eqn:Hstep.
    assert (Hrest : pass_frame c1 c' /\
              forall q j, q ∉ rest -> c1 !! q = Some j ->
                exists j', c' !! q = Some j' /\ same_but_users j j').
    { destruct r1 as [b | st | f].
      - eapply IH. exact Hrun.
      - injection Hrun as <- <-. split; [apply pass_frame_refl |].
        intros q j _ Hq. exists j. split; [exact Hq | apply same_but_users_refl].
      - injection Hrun as <- <-. split; [apply pass_frame_refl |].
        intros q j _ Hq. exists j. split; [exact Hq | apply same_but_users_refl]. }
    destruct Hrest as [Hf Hother]. split.
    + eapply pass_frame_trans; [eapply TryFold_frame; exact Hstep | exact Hf].
    + intros q j Hq Hj. apply not_elem_of_cons in Hq as [Hne Hq].
      destruct (TryFold_other _ _ _ _ _ _ Hstep Hne Hj) as (j1 & Hj1 & H1).
      destruct (Hother _ _ Hq Hj1) as (j' & Hj' & H2).
      exists j'. split; [exact Hj' |]. eapply same_but_users_trans; eassumption.
Qed.

(** After a successful sweep every visited candidate is settled. *)
Lemma loop_settles (ids : list InstId) (changed changed' : bool)
    (c c' : HloComputation) :
  NoDup ids -> no_nested_foldable c ->
  loop ids changed c = (Ok changed', c') ->
  forall p, p ∈ ids -> TryFold p c' = (Ok false, c').
Proof.
  revert changed c. induction ids as [| p rest IH]; intros changed c Hnd Hnn Hrun q Hq.
  - inversion Hq.
  - apply NoDup_cons in Hnd as [Hp Hnd]. rewrite loop_cons in Hrun.
    destruct (TryFold p c) as [[b | st | f] c1] eqn:Hstep; try discriminate.
    pose proof (TryFold_frame _ _ _ _ Hstep) as Hf1.
    apply elem_of_cons in Hq as [-> | Hq].
    + destruct (loop_frame _ _ _ _ _ Hrun) as [Hf Hother].
      apply (TryFold_settled_stable c1).
      * eapply TryFold_settled; eassumption.
      * exact Hf.
      * intros j Hj. now apply Hother.
    + apply (IH (changed || b) c1); try assumption.
      eapply no_nested_foldable_frame; eassumption.
Qed.

Lemma instructions_frame (c c' : HloComputation) :
  pass_frame c c' -> instructions c' = instructions c.
Proof. intros Hf. unfold instructions. now rewrite (Forall2_length _ _ _ Hf). Qed.

Lemma sweep_idempotent (changed changed' again : bool) (c c' : HloComputation) :
  no_nested_foldable c ->
  loop (instructions c) changed c = (Ok changed', c') ->
  loop (instructions c') again c' = (Ok again, c').
Proof.
  intros Hnn Hrun.
  destruct (loop_frame _ _ _ _ _ Hrun) as [Hf _].
  rewrite (instructions_frame _ _ Hf).
  apply loop_settled. intros p Hp.
  eapply loop_settles; try eassumption. apply NoDup_seq.
Qed.

Lemma no_nested_foldableb_sound (c : HloComputation) :
  no_nested_foldableb c = true -> no_nested_foldable c.
Proof.
  unfold no_nested_foldableb. rewrite forallb_forall.
  intros Hall s select_match Hm.
  destruct (decide (s < length c)) as [Hlt | Hge].
  - assert (Hin : In s (instructions c)).
    { apply in_seq. lia. }
    specialize (Hall s Hin). rewrite Hm in Hall.
    apply andb_true_iff in Hall as [Ht Hf].
    destruct (MatchFoldableSelect c (true_operand select_match)) as [[|] | |];
      try discriminate.
    destruct (MatchFoldableSelect c (false_operand select_match)) as [[|] | |];
      try discriminate.
    auto.
  - unfold MatchFoldableSelect, instruction in Hm.
    rewrite (proj2 (lookup_ge_None c s)) in Hm by lia. discriminate.
Qed.

Lemma modules_idempotent (m : HloModule) :
  forall (changed changed' again : bool) (m' : HloModule),
  Forall no_nested_foldable m ->
  for_each_computation NDEBUG GetCollectiveOpGroupMode m changed = (Ok changed', m') ->
  for_each_computation NDEBUG GetCollectiveOpGroupMode m' again = (Ok again, m').
Proof.
  induction m as [| c rest IH]; intros changed changed' again m' Hnn Hrun.
  - injection Hrun as <- <-. reflexivity.
  - apply Forall_cons in Hnn as [Hc Hrest]. simpl in Hrun.
    destruct (loop (instructions c) changed c) as [[ch1 | st | f] c1] eqn:Hsweep;
      try discriminate.
    destruct (for_each_computation _ _ rest ch1) as [r rest'] eqn:Htail.
    injection Hrun as -> <-. simpl.
    rewrite (sweep_idempotent _ _ again _ _ Hc Hsweep).
    rewrite (IH _ _ again _ Hrest Htail). reflexivity.
Qed.

(** C2, amended. If no branch of a foldable select is itself a foldable
    select and a first run of the pass succeeds, then a second run on its
    output returns changed=false and leaves the module as it is. *)
Theorem second_run_is_a_no_op (module module' : HloModule)
    (execution_threads : gset string) (changed : bool) :
  forallb no_nested_foldableb module = true ->
  RunPass module execution_threads = (Ok changed, module') ->
  RunPass module' execution_threads = (Ok false, module').
Proof.
  intros Hnn Hrun. unfold Run in *.
  eapply modules_idempotent; [| exact Hrun].
  apply Forall_forall. intros c Hc. apply no_nested_foldableb_sound.
  rewrite forallb_forall in Hnn. apply Hnn. now apply list_elem_of_In.
Qed.

Lemma comps_app (pre rest : HloModule) (changed : bool) :
  for_each_computation NDEBUG GetCollectiveOpGroupMode (pre ++ rest) changed =
  match for_each_computation NDEBUG GetCollectiveOpGroupMode pre changed with
  | (Ok changed', pre') =>
    let '(r, rest') :=
      for_each_computation NDEBUG GetCollectiveOpGroupMode rest changed' in
    (r, pre' ++ rest')
  | (Error st, pre') => (Error st, pre' ++ rest)
  | (Abort f, pre') => (Abort f, pre' ++ rest)
  end.
Proof.
  revert changed. induction pre as [| c pre IH]; intros changed; simpl.
  - destruct (for_each_computation _ _ rest changed). reflexivity.
  - destruct (loop (instructions c) changed c) as [[ch | st | f] c1];
      [| reflexivity | reflexivity].
    rewrite IH.
    destruct (for_each_computation _ _ pre ch) as [[ch' | st | f] pre'];
      [| reflexivity | reflexivity].
    destruct (for_each_computation _ _ rest ch'). reflexivity.
Qed.

Lemma instructions_split (c : HloComputation) (p : InstId) :
  p < length c ->
  instructions c = seq 0 p ++ p :: seq (S p) (length c - S p).
Proof.
  intros Hlt. unfold instructions.
  replace (length c) with (p + S (length c - S p)) at 1 by lia.
  rewrite seq_app. simpl. reflexivity.
Qed.

(** With a single collective-permute in the computation, the sweep is the
    step on that instruction. *)
Lemma loop_single_candidate (c c1 : HloComputation) (p : InstId) (r : Outcome bool) :
  only_permute c p -> p < length c ->
  TryFold p c = (r, c1) ->
  loop (instructions c) false c = (r, c1).
Proof.
  intros Honly Hlt Hstep.
  rewrite (instructions_split c p Hlt), loop_app.
  rewrite loop_settled.
  2:{ intros q Hq. apply elem_of_seq in Hq.
      destruct (lookup_lt_is_Some_2 c q) as [j Hj]; [lia |].
      apply (TryFold_not_permute _ _ j Hj). apply (Honly q j Hj). lia. }
  rewrite loop_cons, Hstep. destruct r as [b | st | f]; try reflexivity.
  simpl. apply loop_settled. intros q Hq. apply elem_of_seq in Hq.
  pose proof (TryFold_frame _ _ _ _ Hstep) as Hf.
  destruct (lookup_lt_is_Some_2 c q) as [j Hj]; [lia |].
  destruct (Forall2_lookup_l _ _ _ _ _ Hf Hj) as (j' & Hj' & Ho & _).
  apply (TryFold_not_permute _ _ j' Hj'). rewrite Ho. apply (Honly q j Hj). lia.
Qed.

Lemma Run_single_candidate (c c1 : HloComputation) (p : InstId) (r : Outcome bool)
    (execution_threads : gset string) :
  only_permute c p -> p < length c ->
  TryFold p c = (r, c1) ->
  RunPass [c] execution_threads = (r, [c1]).
Proof.
  intros Honly Hlt Hstep. unfold Run. simpl.
  rewrite (loop_single_candidate _ _ _ _ Honly Hlt Hstep).
  destruct r; reflexivity.
Qed.

(** A matched candidate whose predicate is uniform is rewritten. *)
Lemma TryFold_folds (c : HloComputation) (p s : InstId) (cp : HloInstruction)
    (select_match : FoldableSelect) (value : bool) :
  let new_operand := if value then true_operand select_match
                     else false_operand select_match in
  c !! p = Some cp -> opcode cp = kCollectivePermute ->
  operands cp !! 0 = Some s ->
  MatchFoldableSelect c s = Ok (Some select_match) ->
  GetCollectiveOpGroupMode (bool_decide (is_Some (channel_id cp))) None =
    OkValue (collective_mode select_match) ->
  StaticallyEvaluatePredicateForAllSourceIDs NDEBUG select_match
    (source_target_pairs cp) = Ok (Some value) ->
  is_Some (c !! new_operand) ->
  exists c' cp',
    TryFold p c = (Ok true, c') /\
    c' !! p = Some cp' /\
    same_but_users (set_operands (<[0 := new_operand]> (operands cp)) cp) cp'.
Proof.
  intros new_operand Hp Hop H0 Hm Hmode Heval Hnew.
  destruct (ReplaceOperandWith_Ok p 0 new_operand s cp c Hp H0 Hnew) as (c' & Hrep & Hfr).
  assert (Hstep : TryFold p c = (Ok true, c')).
  { rewrite (TryFold_decision _ _ _ _ Hp Hop H0), Hm. unfold fold_decision. simpl.
    rewrite Hmode. simpl. rewrite bool_decide_eq_true_2 by reflexivity. simpl.
    rewrite Heval. simpl. fold new_operand. now rewrite Hrep. }
  destruct (TryFold_rewritten _ _ _ Hstep)
    as (cp0 & s0 & n0 & cp' & Hp0 & _ & H00 & Hd & Hp' & Hrel).
  assert (cp0 = cp) as -> by congruence.
  assert (s0 = s) as -> by congruence.
  rewrite Hm in Hd. unfold fold_decision in Hd. simpl in Hd.
  rewrite Hmode in Hd. simpl in Hd.
  rewrite bool_decide_eq_true_2 in Hd by reflexivity. simpl in Hd.
  rewrite Heval in Hd. simpl in Hd. injection Hd as <-.
  exists c', cp'. auto.
Qed.

(** C3. A collective-permute whose data operand is a select on
    [partition-id != 0] with branches T and F, whose routing table is
    [(1,0),(2,1),(3,2)] and which is addressed in cross-partition mode, gets T
    as its data operand, and the run over the module that holds it returns
    changed=true. *)
Theorem uniform_true_fold (c : HloComputation) (p s t f : InstId)
    (cp : HloInstruction) (execution_threads : gset string) :
  c !! p = Some cp -> opcode cp = kCollectivePermute ->
  operands cp !! 0 = Some s ->
  source_target_pairs cp = [(1, 0); (2, 1); (3, 2)]%Z ->
  foldable_shape c s (mkFoldableSelect kNe 0 kCrossPartition t f) ->
  is_Some (c !! t) ->
  GetCollectiveOpGroupMode (bool_decide (is_Some (channel_id cp))) None =
    OkValue kCrossPartition ->
  only_permute c p ->
  exists c' cp',
    TryFold p c = (Ok true, c') /\
    RunPass [c] execution_threads = (Ok true, [c']) /\
    c' !! p = Some cp' /\
    operands cp' = <[0 := t]> (operands cp) /\
    operands cp' !! 0 = Some t.
Proof.
  intros Hp Hop H0 Hpairs Hshape Ht Hmode Honly.
  destruct (TryFold_folds c p s cp _ true Hp Hop H0
              (MatchFoldableSelect_complete _ _ _ Hshape) Hmode)
    as (c' & cp' & Hstep & Hp' & _ & Hops & _); [| exact Ht |].
  { rewrite Hpairs. destruct NDEBUG; reflexivity. }
  simpl in Hops. exists c', cp'.
  split; [exact Hstep |]. split.
  { apply (Run_single_candidate c c' p); [exact Honly | | exact Hstep].
    eapply lookup_lt_Some. exact Hp. }
  split; [exact Hp' |]. split; [exact Hops |].
  rewrite Hops. apply list_lookup_insert_eq. eapply lookup_lt_Some. exact H0.
Qed.

(** C8. With routing table [(0,1),(1,2)] and predicate [partition-id == 0]
    the sources disagree: whatever group mode the collective-permute has, the
    step rewrites nothing, and the run over the module that holds it returns
    changed=false with the module unchanged. *)
Theorem mixed_sources_no_fold (c : HloComputation) (p s t f : InstId)
    (cp : HloInstruction) (mode mode' : CollectiveOpGroupMode)
    (execution_threads : gset string) :
  c !! p = Some cp -> opcode cp = kCollectivePermute ->
  operands cp !! 0 = Some s ->
  source_target_pairs cp = [(0, 1); (1, 2)]%Z ->
  foldable_shape c s (mkFoldableSelect kEq 0 mode t f) ->
  GetCollectiveOpGroupMode (bool_decide (is_Some (channel_id cp))) None =
    OkValue mode' ->
  only_permute c p ->
  StaticallyEvaluatePredicateForAllSourceIDs NDEBUG
    (mkFoldableSelect kEq 0 mode t f) (source_target_pairs cp) = Ok None /\
  TryFold p c = (Ok false, c) /\
  RunPass [c] execution_threads = (Ok false, [c]).
Proof.
  intros Hp Hop H0 Hpairs Hshape Hmode Honly.
  assert (Heval : StaticallyEvaluatePredicateForAllSourceIDs NDEBUG
            (mkFoldableSelect kEq 0 mode t f) (source_target_pairs cp) = Ok None).
  { rewrite Hpairs. destruct NDEBUG; reflexivity. }
  assert (Hstep : TryFold p c = (Ok false, c)).
  { rewrite (TryFold_decision _ _ _ _ Hp Hop H0).
    rewrite (MatchFoldableSelect_complete _ _ _ Hshape).
    unfold fold_decision. simpl. rewrite Hmode. simpl.
    destruct (bool_decide (mode' = mode)); simpl; [| reflexivity].
    now rewrite Heval. }
  split; [exact Heval |]. split; [exact Hstep |].
  apply (Run_single_candidate c c p); [exact Honly | | exact Hstep].
  eapply lookup_lt_Some. exact Hp.
Qed.

(** C6. When the group mode of a matched collective-permute cannot be
    derived, the step returns that error without rewriting, and the run
    returns it at once: the computation stays as the instructions before the
    candidate left it, and the computations after it are not visited. *)
Theorem group_mode_error_aborts_run (before after before' : HloModule)
    (c c1 : HloComputation) (p s : InstId) (cp : HloInstruction)
    (select_match : FoldableSelect) (st : Status) (changed0 changed1 : bool)
    (execution_threads : gset string) :
  for_each_computation NDEBUG GetCollectiveOpGroupMode before false =
    (Ok changed0, before') ->
  loop (seq 0 p) changed0 c = (Ok changed1, c1) ->
  c1 !! p = Some cp -> opcode cp = kCollectivePermute ->
  operands cp !! 0 = Some s ->
  MatchFoldableSelect c1 s = Ok (Some select_match) ->
  GetCollectiveOpGroupMode (bool_decide (is_Some (channel_id cp))) None = NotOk st ->
  TryFold p c1 = (Error st, c1) /\
  RunPass (before ++ c :: after) execution_threads =
    (Error st, before' ++ c1 :: after).
Proof.
  intros Hbefore Hpre Hp Hop H0 Hm Hmode.
  assert (Hstep : TryFold p c1 = (Error st, c1)).
  { rewrite (TryFold_decision _ _ _ _ Hp Hop H0), Hm. unfold fold_decision. simpl.
    now rewrite Hmode. }
  split; [exact Hstep |].
  unfold Run. rewrite comps_app, Hbefore. simpl.
  destruct (loop_frame _ _ _ _ _ Hpre) as [Hf _].
  assert (Hlt : p < length c).
  { rewrite (Forall2_length _ _ _ Hf). eapply lookup_lt_Some. exact Hp. }
  rewrite (instructions_split c p Hlt), loop_app, Hpre, loop_cons, Hstep.
  reflexivity.
Qed.

(** C7. When the group mode derived from the collective-permute differs from
    the one the matched predicate implies, the step reports no rewrite, raises
    no error and leaves the computation alone, and the sweep goes on with the
    next instruction. *)
Theorem group_mode_mismatch_is_no_match (c : HloComputation) (p s : InstId)
    (cp : HloInstruction) (select_match : FoldableSelect)
    (mode : CollectiveOpGroupMode) (rest : list InstId) (changed : bool) :
  c !! p = Some cp -> opcode cp = kCollectivePermute ->
  operands cp !! 0 = Some s ->
  MatchFoldableSelect c s = Ok (Some select_match) ->
  GetCollectiveOpGroupMode (bool_decide (is_Some (channel_id cp))) None =
    OkValue mode ->
  mode <> collective_mode select_match ->
  TryFold p c = (Ok false, c) /\
  loop (p :: rest) changed c = loop rest changed c.
Proof.
  intros Hp Hop H0 Hm Hmode Hne.
  assert (Hstep : TryFold p c = (Ok false, c)).
  { rewrite (TryFold_decision _ _ _ _ Hp Hop H0), Hm. unfold fold_decision. simpl.
    rewrite Hmode. simpl. now rewrite bool_decide_eq_false_2 by exact Hne. }
  split; [exact Hstep |].
  rewrite loop_cons, Hstep, orb_false_r. reflexivity.
Qed.

End PassProperties.

(** C9. The matcher yields a record exactly on the shape
    [select(compare(id, constant), t, f)] with the compare direct or under
    one broadcast, operand 0 the identity op and operand 1 the constant. A
    predicate wrapped in two broadcasts is not matched, and neither is a
    compare whose operand 0 is the constant and whose operand 1 is the
    identity op: the matcher answers no-match in both cases, not an error. *)
Theorem matcher_one_broadcast_fixed_order (c : HloComputation) (select pred : InstId)
    (sel : HloInstruction) :
  c !! select = Some sel -> opcode sel = kSelect ->
  operands sel !! 0 = Some pred ->
  (forall select_match,
     MatchFoldableSelect c select = Ok (Some select_match) <->
     foldable_shape c select select_match) /\
  (forall (outer inner : HloInstruction) (inner_id : InstId),
     c !! pred = Some outer -> opcode outer = kBroadcast ->
     operands outer !! 0 = Some inner_id ->
     c !! inner_id = Some inner -> opcode inner = kBroadcast ->
     MatchFoldableSelect c select = Ok None) /\
  (forall (cmp constant_op id_op : InstId) (cmpi k id_inst : HloInstruction)
          (mode : CollectiveOpGroupMode),
     predicate_of c pred cmp ->
     c !! cmp = Some cmpi -> opcode cmpi = kCompare ->
     operands cmpi !! 0 = Some constant_op ->
     operands cmpi !! 1 = Some id_op ->
     c !! constant_op = Some k -> opcode k = kConstant ->
     c !! id_op = Some id_inst -> id_mode (opcode id_inst) = Some mode ->
     MatchFoldableSelect c select = Ok None).
Proof.
  intros Hsel Hop H0. split; [| split].
  - intros select_match. split.
    + apply MatchFoldableSelect_sound.
    + apply MatchFoldableSelect_complete.
  - intros outer inner inner_id Hpred Hout Hout0 Hin Hinop.
    unfold MatchFoldableSelect.
    rewrite (instruction_Some _ _ _ Hsel). cbn [obind]. rewrite Hop.
    rewrite bool_decide_eq_true_2 by reflexivity. cbn [negb].
    rewrite (operand_Some _ _ _ _ _ Hsel H0). cbn [obind].
    rewrite (instruction_Some _ _ _ Hpred). cbn [obind]. rewrite Hout.
    rewrite bool_decide_eq_true_2 by reflexivity.
    rewrite (operand_Some _ _ _ _ _ Hpred Hout0). cbn [obind].
    rewrite (instruction_Some _ _ _ Hin). cbn [obind]. rewrite Hinop.
    reflexivity.
  - intros cmp constant_op id_op cmpi k id_inst mode
           Hpred Hcmp Hcop Hc0 Hc1 Hk Hkop Hid Hmode.
    unfold MatchFoldableSelect.
    rewrite (instruction_Some _ _ _ Hsel). cbn [obind]. rewrite Hop.
    rewrite bool_decide_eq_true_2 by reflexivity. cbn [negb].
    rewrite (operand_Some _ _ _ _ _ Hsel H0). cbn [obind].
    assert (Hunwrap :
      (pc <- instruction c pred ;;
       (if bool_decide (opcode pc = kBroadcast) then operand c pred 0 else Ok pred))%outcome
      = Ok cmp).
    { destruct Hpred as [| b cmp Hb Hbop Hb0].
      - rewrite (instruction_Some _ _ _ Hcmp). simpl. now rewrite Hcop.
      - rewrite (instruction_Some _ _ _ Hb). simpl. rewrite Hbop. simpl.
        apply (operand_Some _ _ _ _ _ Hb Hb0). }
    destruct (instruction c pred) as [pc | |]; simpl in Hunwrap; try discriminate.
    cbn [obind]. rewrite Hunwrap. cbn [obind].
    rewrite (instruction_Some _ _ _ Hcmp). cbn [obind]. rewrite Hcop.
    rewrite bool_decide_eq_true_2 by reflexivity. cbn [negb].
    rewrite (operand_Some _ _ _ _ _ Hcmp Hc0). cbn [obind].
    rewrite (operand_Some _ _ _ _ _ Hcmp Hc1). cbn [obind].
    rewrite (instruction_Some _ _ _ Hk). cbn [obind]. rewrite Hkop.
    reflexivity.
Qed.

(** ** Directions other than equal and not-equal *)

Lemma evaluate_release_not_equal (select_match : FoldableSelect)
    (pairs : SourceTargetPairs) :
  cmp_direction select_match <> kEq ->
  StaticallyEvaluatePredicateForAllSourceIDs true select_match pairs =
  StaticallyEvaluatePredicateForAllSourceIDs true
    (mkFoldableSelect kNe (constant_id select_match) (collective_mode select_match)
       (true_operand select_match) (false_operand select_match)) pairs.
Proof.
  intros Hne. destruct pairs as [| first rest]; [reflexivity |].
  unfold StaticallyEvaluatePredicateForAllSourceIDs. rewrite !assert_release.
  cbn [obind]. f_equal.
  assert (Hpred : forall p, predicate select_match p =
            predicate (mkFoldableSelect kNe (constant_id select_match)
                         (collective_mode select_match) (true_operand select_match)
                         (false_operand select_match)) p).
  { intros p. rewrite !predicate_not_equal by (simpl; congruence). reflexivity. }
  rewrite Hpred. generalize (predicate
    (mkFoldableSelect kNe (constant_id select_match) (collective_mode select_match)
       (true_operand select_match) (false_operand select_match)) first).
  intros b. induction rest as [| q rest IH]; simpl; [reflexivity |].
  rewrite Hpred, IH. reflexivity.
Qed.

(** C5. A compare of any direction is matched, the direction copied into the
    record, and in a release build the collective-permute over it is folded
    as if the direction were not-equal: point-evaluation is
    [source-id != constant], the evaluator's answer and the fold decision are
    those of the same record with direction not-equal, and on a non-empty
    table whose sources all differ from the constant (or all equal it) the
    step returns changed=true with the true (or false) branch in slot 0, as
    does the run over a module with this single collective-permute. Nothing
    rejects the match: only the assertion of a debug build stops such a
    record, by aborting the evaluator and with it the step. *)
Theorem other_directions_fold_as_not_equal :
  (forall c select select_match,
     foldable_shape c select select_match ->
     MatchFoldableSelect c select = Ok (Some select_match)) /\
  (forall select_match p,
     cmp_direction select_match <> kEq ->
     predicate select_match p = negb (bool_decide (p.1 = constant_id select_match))) /\
  (forall select_match pairs,
     cmp_direction select_match <> kEq ->
     StaticallyEvaluatePredicateForAllSourceIDs true select_match pairs =
     StaticallyEvaluatePredicateForAllSourceIDs true
       (mkFoldableSelect kNe (constant_id select_match) (collective_mode select_match)
          (true_operand select_match) (false_operand select_match)) pairs) /\
  (forall group_mode cp select_match,
     cmp_direction select_match <> kEq ->
     fold_decision true group_mode cp (Ok (Some select_match)) =
     fold_decision true group_mode cp
       (Ok (Some (mkFoldableSelect kNe (constant_id select_match)
                    (collective_mode select_match) (true_operand select_match)
                    (false_operand select_match))))) /\
  (forall select_match pairs,
     ~ valid_direction select_match -> pairs <> [] ->
     StaticallyEvaluatePredicateForAllSourceIDs false select_match pairs =
     Abort AssertFailed) /\
  (forall (group_mode : bool -> option bool -> StatusOr CollectiveOpGroupMode)
          (c : HloComputation) (p s : InstId) (cp : HloInstruction)
          (select_match : FoldableSelect) (value : bool)
          (execution_threads : gset string),
     c !! p = Some cp -> opcode cp = kCollectivePermute ->
     operands cp !! 0 = Some s ->
     foldable_shape c s select_match ->
     cmp_direction select_match <> kEq ->
     group_mode (bool_decide (is_Some (channel_id cp))) None =
       OkValue (collective_mode select_match) ->
     source_target_pairs cp <> [] ->
     (forall st_pair, st_pair ∈ source_target_pairs cp ->
        negb (bool_decide (st_pair.1 = constant_id select_match)) = value) ->
     is_Some (c !! (if value then true_operand select_match
                    else false_operand select_match)) ->
     exists c' cp',
       TryFoldColectivePermuteOfSelect true group_mode p c = (Ok true, c') /\
       c' !! p = Some cp' /\
       operands cp' = <[0 := if value then true_operand select_match
                             else false_operand select_match]> (operands cp) /\
       (only_permute c p ->
        Run true group_mode [c] execution_threads = (Ok true, [c']))) /\
  (forall (group_mode : bool -> option bool -> StatusOr CollectiveOpGroupMode)
          (c : HloComputation) (p s : InstId) (cp : HloInstruction)
          (select_match : FoldableSelect),
     c !! p = Some cp -> opcode cp = kCollectivePermute ->
     operands cp !! 0 = Some s ->
     foldable_shape c s select_match ->
     ~ valid_direction select_match ->
     group_mode (bool_decide (is_Some (channel_id cp))) None =
       OkValue (collective_mode select_match) ->
     source_target_pairs cp <> [] ->
     TryFoldColectivePermuteOfSelect false group_mode p c = (Abort AssertFailed, c)).
Proof.
  assert (Hdebug : forall select_match pairs,
            ~ valid_direction select_match -> pairs <> [] ->
            StaticallyEvaluatePredicateForAllSourceIDs false select_match pairs =
            Abort AssertFailed).
  { intros select_match [| first rest] Hbad Hpairs; [now contradiction Hpairs |].
    unfold StaticallyEvaluatePredicateForAllSourceIDs, assert.
    destruct (bool_decide _ || bool_decide _) eqn:E; [| reflexivity].
    apply valid_direction_check in E. contradiction. }
  split; [exact MatchFoldableSelect_complete |].
  split; [exact predicate_not_equal |].
  split; [exact evaluate_release_not_equal |].
  split; [| split; [exact Hdebug | split]].
  - intros group_mode cp select_match Hne. unfold fold_decision. cbn [obind].
    destruct (of_status_or _) as [mode | |]; cbn [obind]; try reflexivity.
    cbn [collective_mode true_operand false_operand].
    destruct (negb _); [reflexivity |].
    now rewrite (evaluate_release_not_equal select_match _ Hne).
  - intros group_mode c p s cp select_match value execution_threads
           Hp Hop H0 Hshape Hdir Hmode Hne Hall Hnew.
    assert (Hev : StaticallyEvaluatePredicateForAllSourceIDs true select_match
                    (source_target_pairs cp) = Ok (Some value)).
    { destruct (source_target_pairs cp) as [| first rest]; [now contradiction Hne |].
      unfold StaticallyEvaluatePredicateForAllSourceIDs. rewrite assert_release.
      cbn [obind]. f_equal. apply same_for_all_uniform.
      intros q Hq. rewrite predicate_not_equal by exact Hdir. now apply Hall. }
    destruct (TryFold_folds true group_mode c p s cp select_match value Hp Hop H0
                (MatchFoldableSelect_complete _ _ _ Hshape) Hmode Hev Hnew)
      as (c' & cp' & Hstep & Hp' & _ & Hops & _).
    exists c', cp'. split; [exact Hstep |]. split; [exact Hp' |].
    split; [exact Hops |]. intros Honly.
    apply (Run_single_candidate true group_mode c c' p (Ok true) execution_threads
             Honly (lookup_lt_Some _ _ _ Hp) Hstep).
  - intros group_mode c p s cp select_match Hp Hop H0 Hshape Hbad Hmode Hne.
    rewrite (TryFold_decision false group_mode c p s cp Hp Hop H0).
    rewrite (MatchFoldableSelect_complete _ _ _ Hshape).
    unfold fold_decision. cbn [obind]. rewrite Hmode. cbn [of_status_or obind].
    rewrite bool_decide_eq_true_2 by reflexivity. cbn [negb].
    rewrite (Hdebug _ _ Hbad Hne). reflexivity.
Qed.

(** C4. The matcher run on a select over [partition-id < 0]: it answers
    with a record of direction less-than, which a release build folds and on
    which a debug build fails the evaluator's assertion. *)
Theorem matcher_yields_less_than_record :
  MatchFoldableSelect less_than_module 5 =
    Ok (Some (mkFoldableSelect kLt 0 kCrossPartition 3 4)) /\
  (Run true channel_group_mode [less_than_module] ∅).1 = Ok true /\
  Run false channel_group_mode [less_than_module] ∅ =
    (Abort AssertFailed, [less_than_module]).
Proof. repeat split; vm_compute; reflexivity. Qed.

(** ** The reverse-use bookkeeping *)

Lemma set_operands_lookup (ops : list InstId) (p q : InstId) (c : HloComputation)
    (j : HloInstruction) :
  c !! q = Some j ->
  exists j', alter (set_operands ops) p c !! q = Some j' /\
    operands j' = (if decide (q = p) then ops else operands j) /\
    users j' = users j.
Proof.
  intros Hq. destruct (decide (q = p)) as [-> | Hne].
  - rewrite list_lookup_alter_eq, Hq. simpl. eauto.
  - rewrite list_lookup_alter_ne by congruence. eauto.
Qed.

Lemma AddUser_lookup (p user q : InstId) (c : HloComputation) (j : HloInstruction) :
  c !! q = Some j ->
  exists j', AddUser p user c !! q = Some j' /\
    operands j' = operands j /\
    forall x, x ∈ users j' <-> x ∈ users j \/ (q = p /\ x = user).
Proof.
  intros Hq. unfold AddUser. destruct (decide (q = p)) as [-> | Hne].
  - rewrite list_lookup_alter_eq, Hq. simpl.
    destruct (decide (user ∈ users j)) as [Hin | Hout].
    + exists j. split; [reflexivity |]. split; [reflexivity |].
      intros x. split; [auto |]. intros [H | [_ ->]]; assumption.
    + eexists. split; [reflexivity |]. split; [reflexivity |]. simpl.
      intros x. rewrite elem_of_app, list_elem_of_singleton. intuition.
  - rewrite list_lookup_alter_ne by congruence.
    exists j. split; [exact Hq |]. split; [reflexivity |].
    intros x. split; [auto |]. intros [H | [H _]]; [assumption | contradiction].
Qed.

Lemma RemoveUser_lookup (p user q : InstId) (c : HloComputation) (j : HloInstruction) :
  c !! q = Some j ->
  exists j', RemoveUser p user c !! q = Some j' /\
    operands j' = operands j /\
    forall x, x ∈ users j' <-> x ∈ users j /\ ~ (q = p /\ x = user).
Proof.
  intros Hq. unfold RemoveUser. destruct (decide (q = p)) as [-> | Hne].
  - rewrite list_lookup_alter_eq, Hq. simpl.
    eexists. split; [reflexivity |]. split; [reflexivity |]. simpl.
    intros x. rewrite list_elem_of_filter. intuition.
  - rewrite list_lookup_alter_ne by congruence.
    exists j. split; [exact Hq |]. split; [reflexivity |].
    intros x. intuition.
Qed.

(** What a replacement by a different operand leaves at each position. *)
Lemma ReplaceOperandWith_lookup (this k new_operand old : InstId)
    (inst : HloInstruction) (c c' : HloComputation) :
  c !! this = Some inst -> operands inst !! k = Some old ->
  old <> new_operand ->
  ReplaceOperandWith this k new_operand c = (Ok tt, c') ->
  forall q j, c !! q = Some j ->
    exists j', c' !! q = Some j' /\
      operands j' = (if decide (q = this) then <[k := new_operand]> (operands inst)
                     else operands j) /\
      forall u, u ∈ users j' <->
        (u ∈ users j /\
         ~ (q = old /\ u = this /\ old ∉ <[k := new_operand]> (operands inst))) \/
        (q = new_operand /\ u = this).
Proof.
  intros Hthis Hold Hne Hrun q j Hq. unfold ReplaceOperandWith in Hrun.
  rewrite Hthis, Hold in Hrun.
  destruct (c !! new_operand) as [n |] eqn:Hnew; [| discriminate].
  rewrite decide_False in Hrun by exact Hne.
  injection Hrun as <-.
  set (ops' := <[k := new_operand]> (operands inst)).
  destruct (set_operands_lookup ops' this q c j Hq) as (j1 & Hq1 & Hops1 & Hus1).
  destruct (decide (old ∈ ops')) as [Hin | Hout].
  - destruct (AddUser_lookup new_operand this q _ j1 Hq1) as (j3 & Hq3 & Hops3 & Hus3).
    exists j3. split; [exact Hq3 |]. split; [congruence |].
    intros u. rewrite Hus3, Hus1. intuition.
  - destruct (RemoveUser_lookup old this q _ j1 Hq1) as (j2 & Hq2 & Hops2 & Hus2).
    destruct (AddUser_lookup new_operand this q _ j2 Hq2) as (j3 & Hq3 & Hops3 & Hus3).
    exists j3. split; [exact Hq3 |]. split; [congruence |].
    intros u. rewrite Hus3, Hus2, Hus1. intuition.
Qed.

Lemma elem_of_insert_inv (l : list InstId) (k x y : InstId) :
  x ∈ <[k := y]> l -> x = y \/ x ∈ l.
Proof.
  intros Hx. apply list_elem_of_lookup in Hx as [i Hi].
  apply list_lookup_insert_Some in Hi as [(-> & -> & _) | (_ & Hi)].
  - now left.
  - right. apply list_elem_of_lookup. eauto.
Qed.

Lemma elem_of_insert_other (l : list InstId) (k x y old : InstId) :
  l !! k = Some old -> x ∈ l -> x <> old -> x ∈ <[k := y]> l.
Proof.
  intros Hk Hx Hne. apply list_elem_of_lookup in Hx as [i Hi].
  apply list_elem_of_lookup. exists i.
  rewrite list_lookup_insert_ne; [exact Hi |]. intros ->. congruence.
Qed.

Lemma ReplaceOperandWith_users_consistent (this k new_operand : InstId)
    (c c' : HloComputation) :
  users_consistent c ->
  ReplaceOperandWith this k new_operand c = (Ok tt, c') ->
  users_consistent c'.
Proof.
  intros Hcons Hrun.
  destruct (ReplaceOperandWith_cases this k new_operand c)
    as [Hab | (inst & c1 & Hthis & [old Hold] & [n Hnew] & Hrun1 & Hfr)];
    [congruence |].
  assert (c1 = c') as -> by congruence. clear Hrun1.
  destruct (decide (old = new_operand)) as [-> | Hne].
  { unfold ReplaceOperandWith in Hrun. rewrite Hthis, Hold, Hnew in Hrun.
    rewrite decide_True in Hrun by reflexivity. now injection Hrun as <-. }
  pose proof (ReplaceOperandWith_lookup _ _ _ _ _ _ _ Hthis Hold Hne Hrun) as Hlk.
  assert (Hlen : length c' = length c).
  { rewrite <- (Forall2_length _ _ _ Hfr). apply length_alter. }
  assert (Hback : forall q j', c' !! q = Some j' -> exists j, c !! q = Some j).
  { intros q j' Hq. apply lookup_lt_is_Some_2. rewrite <- Hlen.
    eapply lookup_lt_Some. exact Hq. }
  set (ops' := <[k := new_operand]> (operands inst)) in *.
  assert (Hknew : new_operand ∈ ops').
  { apply list_elem_of_insert. eapply lookup_lt_Some. exact Hold. }
  intros q u. split.
  - intros (j' & Hq' & Hu).
    destruct (Hback _ _ Hq') as (j & Hq).
    destruct (Hlk _ _ Hq) as (j'' & Hq'' & _ & Hus).
    assert (j'' = j') as -> by congruence.
    destruct (proj1 (Hus u) Hu) as [[Hu1 Hkeep] | [Eq Eu]].
    + destruct (proj1 (Hcons q u) (ex_intro _ j (conj Hq Hu1))) as (ju & Hju & Hin).
      destruct (Hlk _ _ Hju) as (ju' & Hju' & Hops & _).
      exists ju'. split; [exact Hju' |]. rewrite Hops.
      destruct (decide (u = this)) as [-> | Hother]; [| exact Hin].
      assert (ju = inst) as -> by congruence.
      destruct (decide (q = old)) as [-> | Hqold].
      * destruct (decide (old ∈ ops')); [assumption |].
        exfalso. apply Hkeep. auto.
      * eapply elem_of_insert_other; eassumption.
    + subst q u. destruct (Hlk _ _ Hthis) as (inst' & Hinst' & Hops & _).
      exists inst'. split; [exact Hinst' |].
      rewrite Hops, decide_True by reflexivity. exact Hknew.
  - intros (ju' & Hu' & Hin).
    destruct (Hback _ _ Hu') as (ju & Hu).
    destruct (Hlk _ _ Hu) as (ju'' & Hu'' & Hops & _).
    assert (ju'' = ju') as -> by congruence.
    rewrite Hops in Hin.
    destruct (decide (u = this)) as [-> | Hother].
    + assert (ju = inst) as -> by congruence.
      destruct (decide (q = new_operand)) as [-> | Hqnew].
      * destruct (Hlk _ _ Hnew) as (n' & Hn' & _ & Hus).
        exists n'. split; [exact Hn' |]. apply Hus. now right.
      * apply elem_of_insert_inv in Hin as Hin'.
        destruct Hin' as [-> | Hin']; [now contradiction Hqnew |].
        destruct (proj2 (Hcons q this) (ex_intro _ inst (conj Hthis Hin')))
          as (j & Hq & Huser).
        destruct (Hlk _ _ Hq) as (j' & Hq' & _ & Hus).
        exists j'. split; [exact Hq' |]. apply Hus. left.
        split; [exact Huser |]. intros (-> & _ & Hout). now apply Hout.
    + destruct (proj2 (Hcons q u) (ex_intro _ ju (conj Hu Hin))) as (j & Hq & Huser).
      destruct (Hlk _ _ Hq) as (j' & Hq' & _ & Hus).
      exists j'. split; [exact Hq' |]. apply Hus. left.
      split; [exact Huser |]. intros (_ & -> & _). now contradiction Hother.
Qed.

Lemma ReplaceOperandWith_untouched (this k new_operand old q : InstId)
    (inst : HloInstruction) (c c' : HloComputation) :
  c !! this = Some inst -> operands inst !! k = Some old ->
  ReplaceOperandWith this k new_operand c = (Ok tt, c') ->
  q <> this -> q <> old -> q <> new_operand ->
  c' !! q = c !! q.
Proof.
  intros Hthis Hold Hrun H1 H2 H3. unfold ReplaceOperandWith in Hrun.
  rewrite Hthis, Hold in Hrun.
  destruct (c !! new_operand); [| discriminate].
  destruct (decide (old = new_operand)); [now injection Hrun as <- |].
  injection Hrun as <-. unfold AddUser, RemoveUser.
  destruct (decide (old ∈ _));
    now rewrite !list_lookup_alter_ne by congruence.
Qed.

Lemma comps_frame (NDEBUG : bool)
    (group_mode : bool -> option bool -> StatusOr CollectiveOpGroupMode)
    (m m' : HloModule) (changed : bool) (r : Outcome bool) :
  for_each_computation NDEBUG group_mode m changed = (r, m') ->
  Forall2 pass_frame m m'.
Proof.
  revert changed m'. induction m as [| c rest IH]; intros changed m' Hrun.
  - injection Hrun as <- <-. constructor.
  - simpl in Hrun.
    destruct (for_each_instruction _ _ (instructions c) changed c)
      as [r1 c1] eqn:Hsweep.
    destruct (loop_frame _ _ _ _ _ _ _ Hsweep) as [Hf _].
    assert (Hrest : Forall2 pass_frame rest rest).
    { apply Forall2_same_length_lookup_2; [reflexivity |].
      intros i x y Hx Hy. assert (x = y) as -> by congruence.
      apply pass_frame_refl. }
    destruct r1 as [ch | st | f].
    + destruct (for_each_computation _ _ rest ch) as [r2 rest'] eqn:Htail.
      injection Hrun as <- <-. constructor; [exact Hf |]. eapply IH. exact Htail.
    + injection Hrun as <- <-. now constructor.
    + injection Hrun as <- <-. now constructor.
Qed.

(** C10. A fold replaces slot 0 of the collective-permute and nothing else:
    the computation keeps its length; the collective-permute differs from
    its old self only in that slot and its user list; every other
    instruction, the select included, keeps everything but possibly its user
    list, and is untouched unless it is the old or the new operand; consistent
    use/user bookkeeping stays consistent. A whole run, whatever its
    outcome, adds or removes no instruction or computation and changes
    operands of collective-permutes only. *)
Theorem fold_replaces_one_operand_slot (NDEBUG : bool)
    (group_mode : bool -> option bool -> StatusOr CollectiveOpGroupMode) :
  (forall (c c' : HloComputation) (p : InstId),
     TryFoldColectivePermuteOfSelect NDEBUG group_mode p c = (Ok true, c') ->
     length c' = length c /\
     exists cp cp' select new_operand,
       c !! p = Some cp /\ opcode cp = kCollectivePermute /\
       operands cp !! 0 = Some select /\
       c' !! p = Some cp' /\
       same_but_users (set_operands (<[0 := new_operand]> (operands cp)) cp) cp' /\
       (forall q j, q <> p -> c !! q = Some j ->
          exists j', c' !! q = Some j' /\ same_but_users j j') /\
       (forall q, q <> p -> q <> select -> q <> new_operand -> c' !! q = c !! q) /\
       (users_consistent c -> users_consistent c')) /\
  (forall (module module' : HloModule) (r : Outcome bool)
          (execution_threads : gset string),
     Run NDEBUG group_mode module execution_threads = (r, module') ->
     Forall2 pass_frame module module').
Proof.
  split.
  - intros c c' p Hrun.
    pose proof (TryFold_frame _ _ _ _ _ _ Hrun) as Hf.
    split; [symmetry; exact (Forall2_length _ _ _ Hf) |].
    destruct (TryFold_cases _ _ _ _ _ _ Hrun)
      as [[Hne _] | (cp & s & n & _ & Hp & Hop & H0 & _ & _ & Hrep & Hfr)];
      [now contradiction Hne |].
    destruct (TryFold_rewritten _ _ _ _ _ Hrun)
      as (cp0 & s0 & n0 & cp' & Hp0 & _ & H00 & _ & Hp' & Hrel).
    assert (cp0 = cp) as -> by congruence.
    assert (Hlk : alter (set_operands (<[0 := n]> (operands cp))) p c !! p =
                  Some (set_operands (<[0 := n]> (operands cp)) cp)).
    { rewrite list_lookup_alter_eq, Hp. reflexivity. }
    destruct (Forall2_lookup_l _ _ _ _ _ Hfr Hlk) as (cp'' & Hcp'' & Hrel').
    assert (cp'' = cp') as -> by congruence.
    exists cp, cp', s, n.
    split; [exact Hp |]. split; [exact Hop |]. split; [exact H0 |].
    split; [exact Hp' |]. split; [exact Hrel' |].
    split; [| split].
    + intros q j Hq Hj. eapply TryFold_other; eassumption.
    + intros q H1 H2 H3.
      exact (ReplaceOperandWith_untouched p 0 n s q cp c c' Hp H0 Hrep H1 H2 H3).
    + intros Hcons.
      exact (ReplaceOperandWith_users_consistent p 0 n c c' Hcons Hrep).
  - intros module module' r execution_threads Hrun.
    eapply comps_frame. exact Hrun.
Qed.

(** * The properties on the concrete modules *)

Ltac shape_direct :=
  econstructor;
  [reflexivity | reflexivity | reflexivity | reflexivity | reflexivity
  | apply predicate_direct | reflexivity ..].

Ltac shape_broadcast :=
  econstructor;
  [reflexivity | reflexivity | reflexivity | reflexivity | reflexivity
  | eapply predicate_broadcast; reflexivity | reflexivity ..].

Ltac only_permute_by_cases :=
  let p := fresh "p" in let i := fresh "i" in
  let Hi := fresh "Hi" in let Hne := fresh "Hne" in
  intros p i Hi Hne;
  repeat (destruct p as [| p];
          [simpl in Hi; injection Hi as <-;
           first [discriminate | now contradiction Hne] |]);
  simpl in Hi; discriminate.

Lemma evaluator_returns_uniform_value_witness :
  valid_direction (mkFoldableSelect kNe 0 kCrossPartition 3 4) /\
  StaticallyEvaluatePredicateForAllSourceIDs false
    (mkFoldableSelect kNe 0 kCrossPartition 3 4) [(1, 0); (2, 1); (3, 2)]%Z =
  Ok (Some true).
Proof.
  assert (Hd : valid_direction (mkFoldableSelect kNe 0 kCrossPartition 3 4)).
  { right. reflexivity. }
  split; [exact Hd |].
  apply (proj1 (proj2 (evaluator_returns_uniform_value false
           (mkFoldableSelect kNe 0 kCrossPartition 3 4)
           [(1, 0); (2, 1); (3, 2)]%Z Hd))).
  split; [discriminate |].
  intros p Hp.
  repeat (apply elem_of_cons in Hp as [-> | Hp]; [reflexivity |]).
  inversion Hp.
Defined.

(** C2 as stated fails: on a select nested in the true branch of another,
    the first run forwards the inner select, and the second run folds again
    and returns changed=true. *)
Lemma second_run_changes_nested_selects :
  (Run true channel_group_mode [nested_selects_module] ∅).1 = Ok true /\
  (Run true channel_group_mode
     (Run true channel_group_mode [nested_selects_module] ∅).2 ∅).1 = Ok true /\
  Run true channel_group_mode
    (Run true channel_group_mode [nested_selects_module] ∅).2 ∅ <>
  (Ok false, (Run true channel_group_mode [nested_selects_module] ∅).2).
Proof.
  vm_compute. repeat split; discriminate.
Qed.

Lemma second_run_is_a_no_op_witness :
  forallb no_nested_foldableb [uniform_true_module] = true /\
  Run true channel_group_mode
    (Run true channel_group_mode [uniform_true_module] ∅).2 ∅ =
  (Ok false, (Run true channel_group_mode [uniform_true_module] ∅).2).
Proof.
  split; [reflexivity |].
  apply (second_run_is_a_no_op true channel_group_mode [uniform_true_module]
           (Run true channel_group_mode [uniform_true_module] ∅).2 ∅ true).
  - reflexivity.
  - vm_compute. reflexivity.
Defined.

Lemma uniform_true_fold_witness :
  foldable_shape uniform_true_module 5 (mkFoldableSelect kNe 0 kCrossPartition 3 4) /\
  exists c' cp',
    TryFoldColectivePermuteOfSelect false channel_group_mode 6 uniform_true_module =
      (Ok true, c') /\
    Run false channel_group_mode [uniform_true_module] ∅ = (Ok true, [c']) /\
    c' !! 6 = Some cp' /\
    operands cp' = <[0 := 3]> [5] /\
    operands cp' !! 0 = Some 3.
Proof.
  assert (Hshape : foldable_shape uniform_true_module 5
                     (mkFoldableSelect kNe 0 kCrossPartition 3 4)).
  { shape_direct. }
  split; [exact Hshape |].
  apply (uniform_true_fold false channel_group_mode uniform_true_module 6 5 3 4
           (permute_inst [5] [] (Some 1%Z) [(1, 0); (2, 1); (3, 2)]%Z) ∅).
  - reflexivity.
  - reflexivity.
  - reflexivity.
  - reflexivity.
  - exact Hshape.
  - eexists. reflexivity.
  - reflexivity.
  - only_permute_by_cases.
Defined.

Lemma mixed_sources_no_fold_witness :
  foldable_shape mixed_sources_module 5 (mkFoldableSelect kEq 0 kCrossPartition 3 4) /\
  TryFoldColectivePermuteOfSelect false channel_group_mode 6 mixed_sources_module =
    (Ok false, mixed_sources_module) /\
  Run false channel_group_mode [mixed_sources_module] ∅ =
    (Ok false, [mixed_sources_module]).
Proof.
  assert (Hshape : foldable_shape mixed_sources_module 5
                     (mkFoldableSelect kEq 0 kCrossPartition 3 4)).
  { shape_direct. }
  split; [exact Hshape |].
  apply (mixed_sources_no_fold false channel_group_mode mixed_sources_module 6 5 3 4
           (permute_inst [5] [] (Some 1%Z) [(0, 1); (1, 2)]%Z)
           kCrossPartition kCrossPartition ∅).
  - reflexivity.
  - reflexivity.
  - reflexivity.
  - reflexivity.
  - exact Hshape.
  - reflexivity.
  - only_permute_by_cases.
Defined.

Lemma group_mode_error_aborts_run_witness :
  for_each_instruction true channel_required_group_mode (seq 0 7) false
    three_permutes_module =
    (Ok true, <[6 := permute_inst [3] [] (Some 1%Z) [(1, 0)]%Z]>
                (<[5 := plain kSelect [2; 3; 4] [7; 8]]>
                   (<[3 := plain parameter [] [5; 6]]> three_permutes_module))) /\
  Run true channel_required_group_mode
    ([] ++ three_permutes_module :: [uniform_true_module]) ∅ =
  (Error (InvalidArgument "channel id required"),
   [] ++ <[6 := permute_inst [3] [] (Some 1%Z) [(1, 0)]%Z]>
           (<[5 := plain kSelect [2; 3; 4] [7; 8]]>
              (<[3 := plain parameter [] [5; 6]]> three_permutes_module))
      :: [uniform_true_module]).
Proof.
  assert (Hpre : for_each_instruction true channel_required_group_mode (seq 0 7)
                   false three_permutes_module =
                 (Ok true, <[6 := permute_inst [3] [] (Some 1%Z) [(1, 0)]%Z]>
                   (<[5 := plain kSelect [2; 3; 4] [7; 8]]>
                      (<[3 := plain parameter [] [5; 6]]> three_permutes_module)))).
  { vm_compute. reflexivity. }
  split; [exact Hpre |].
  apply (group_mode_error_aborts_run true channel_required_group_mode
           [] [uniform_true_module] [] three_permutes_module _ 7 5
           (permute_inst [5] [] None [(1, 0)]%Z)
           (mkFoldableSelect kNe 0 kCrossPartition 3 4)
           (InvalidArgument "channel id required") false true ∅).
  - reflexivity.
  - exact Hpre.
  - reflexivity.
  - reflexivity.
  - reflexivity.
  - vm_compute. reflexivity.
  - reflexivity.
Defined.

Lemma group_mode_mismatch_is_no_match_witness :
  MatchFoldableSelect replica_predicate_module 5 =
    Ok (Some (mkFoldableSelect kNe 0 kCrossReplica 3 4)) /\
  TryFoldColectivePermuteOfSelect false channel_group_mode 6 replica_predicate_module =
    (Ok false, replica_predicate_module) /\
  for_each_instruction false channel_group_mode [6; 5] false replica_predicate_module =
  for_each_instruction false channel_group_mode [5] false replica_predicate_module.
Proof.
  assert (Hm : MatchFoldableSelect replica_predicate_module 5 =
               Ok (Some (mkFoldableSelect kNe 0 kCrossReplica 3 4))).
  { reflexivity. }
  split; [exact Hm |].
  apply (group_mode_mismatch_is_no_match false channel_group_mode
           replica_predicate_module 6 5
           (permute_inst [5] [] (Some 1%Z) [(1, 0); (2, 1); (3, 2)]%Z)
           (mkFoldableSelect kNe 0 kCrossReplica 3 4) kCrossPartition [5] false).
  - reflexivity.
  - reflexivity.
  - reflexivity.
  - exact Hm.
  - reflexivity.
  - discriminate.
Defined.

Lemma matcher_one_broadcast_fixed_order_witness :
  MatchFoldableSelect broadcast_module 6 =
    Ok (Some (mkFoldableSelect kNe 0 kCrossPartition 4 5)) /\
  MatchFoldableSelect double_broadcast_module 7 = Ok None /\
  MatchFoldableSelect swapped_compare_module 5 = Ok None.
Proof.
  split; [| split].
  - apply (proj1 (matcher_one_broadcast_fixed_order broadcast_module 6 3
                    (plain kSelect [3; 4; 5] [7]) eq_refl eq_refl eq_refl)).
    shape_broadcast.
  - apply (proj1 (proj2 (matcher_one_broadcast_fixed_order double_broadcast_module 7 4
                    (plain kSelect [4; 5; 6] [8]) eq_refl eq_refl eq_refl))
             (plain kBroadcast [3] [7]) (plain kBroadcast [2] [4]) 3);
      reflexivity.
  - apply (proj2 (proj2 (matcher_one_broadcast_fixed_order swapped_compare_module 5 2
                    (plain kSelect [2; 3; 4] [6]) eq_refl eq_refl eq_refl))
             2 1 0 (compare_inst kNe [1; 0] [5]) (constant_inst 0 [2])
             (plain kPartitionId [] [2]) kCrossPartition);
      first [apply predicate_direct | reflexivity].
Defined.

Lemma other_directions_fold_as_not_equal_witness :
  MatchFoldableSelect less_than_module 5 =
    Ok (Some (mkFoldableSelect kLt 0 kCrossPartition 3 4)) /\
  predicate (mkFoldableSelect kLt 0 kCrossPartition 3 4) (1, 0)%Z = true /\
  StaticallyEvaluatePredicateForAllSourceIDs true
    (mkFoldableSelect kLt 0 kCrossPartition 3 4) [(1, 0); (2, 1); (3, 2)]%Z =
  StaticallyEvaluatePredicateForAllSourceIDs true
    (mkFoldableSelect kNe 0 kCrossPartition 3 4) [(1, 0); (2, 1); (3, 2)]%Z /\
  StaticallyEvaluatePredicateForAllSourceIDs false
    (mkFoldableSelect kLt 0 kCrossPartition 3 4) [(1, 0); (2, 1); (3, 2)]%Z =
  Abort AssertFailed /\
  (exists c' cp',
     TryFoldColectivePermuteOfSelect true channel_group_mode 6 less_than_module =
       (Ok true, c') /\
     c' !! 6 = Some cp' /\ operands cp' = [3] /\
     Run true channel_group_mode [less_than_module] ∅ = (Ok true, [c'])) /\
  TryFoldColectivePermuteOfSelect false channel_group_mode 6 less_than_module =
    (Abort AssertFailed, less_than_module).
Proof.
  destruct other_directions_fold_as_not_equal
    as (Hmatch & Hpoint & Heval & _ & Hdebug & Hfold & Hstop).
  assert (Hshape : foldable_shape less_than_module 5
                     (mkFoldableSelect kLt 0 kCrossPartition 3 4)).
  { shape_direct. }
  split; [| split; [| split; [| split; [| split]]]].
  - apply Hmatch. exact Hshape.
  - apply (Hpoint (mkFoldableSelect kLt 0 kCrossPartition 3 4) (1, 0)%Z). discriminate.
  - apply (Heval (mkFoldableSelect kLt 0 kCrossPartition 3 4)). discriminate.
  - apply Hdebug; [| discriminate]. intros [H | H]; discriminate.
  - destruct (Hfold channel_group_mode less_than_module 6 5
                (permute_inst [5] [] (Some 1%Z) [(1, 0); (2, 1); (3, 2)]%Z)
                (mkFoldableSelect kLt 0 kCrossPartition 3 4) true ∅)
      as (c' & cp' & Hstep & Hp' & Hops & Hrun).
    + reflexivity.
    + reflexivity.
    + reflexivity.
    + exact Hshape.
    + discriminate.
    + reflexivity.
    + discriminate.
    + intros st_pair Hin.
      repeat (apply elem_of_cons in Hin as [-> | Hin]; [reflexivity |]).
      inversion Hin.
    + eexists. reflexivity.
    + exists c', cp'. split; [exact Hstep |]. split; [exact Hp' |].
      split; [exact Hops |]. apply Hrun. only_permute_by_cases.
  - apply (Hstop channel_group_mode less_than_module 6 5
             (permute_inst [5] [] (Some 1%Z) [(1, 0); (2, 1); (3, 2)]%Z)
             (mkFoldableSelect kLt 0 kCrossPartition 3 4)).
    + reflexivity.
    + reflexivity.
    + reflexivity.
    + exact Hshape.
    + intros [H | H]; discriminate.
    + reflexivity.
    + discriminate.
Defined.

Lemma fold_replaces_one_operand_slot_witness :
  users_consistent uniform_true_module /\
  exists c',
    TryFoldColectivePermuteOfSelect true channel_group_mode 6 uniform_true_module =
      (Ok true, c') /\
    length c' = length uniform_true_module /\
    c' !! 5 = Some (plain kSelect [2; 3; 4] []) /\
    c' !! 2 = uniform_true_module !! 2 /\
    users_consistent c'.
Proof.
  assert (Hcons : users_consistent uniform_true_module).
  { intros p u. split.
    - intros (i & Hi & Hu).
      repeat (destruct p as [| p];
              [simpl in Hi; injection Hi as <-; simpl in Hu;
               repeat (apply elem_of_cons in Hu as [-> | Hu];
                       [eexists; split; [reflexivity | simpl; set_solver] |]);
               inversion Hu |]).
      simpl in Hi. discriminate.
    - intros (j & Hj & Hp).
      repeat (destruct u as [| u];
              [simpl in Hj; injection Hj as <-; simpl in Hp;
               repeat (apply elem_of_cons in Hp as [-> | Hp];
                       [eexists; split; [reflexivity | simpl; set_solver] |]);
               inversion Hp |]).
      simpl in Hj. discriminate. }
  split; [exact Hcons |].
  eexists. split; [vm_compute; reflexivity |].
  destruct (proj1 (fold_replaces_one_operand_slot true channel_group_mode)
              uniform_true_module _ 6 eq_refl)
    as (Hlen & cp & cp' & s & n & Hp & _ & H0 & _ & _ & _ & Hsame & Hkeep).
  split; [exact Hlen |]. split; [reflexivity |].
  split; [reflexivity |]. exact (Hkeep Hcons).
Defined.

(** * Further properties of the pass *)

(** ** The evaluator depends on the senders only *)

Lemma evaluate_Some (NDEBUG : bool) (select_match : FoldableSelect)
    (pairs : SourceTargetPairs) (b : bool) :
  StaticallyEvaluatePredicateForAllSourceIDs NDEBUG select_match pairs = Ok (Some b) ->
  pairs <> [] /\ forall p, p ∈ pairs -> predicate select_match p = b.
Proof.
  destruct pairs as [| first rest]; [discriminate |].
  unfold StaticallyEvaluatePredicateForAllSourceIDs.
  destruct (assert NDEBUG _) as [[] | |]; cbn [obind]; try discriminate.
  intros [= H]. apply same_for_all_Some in H as [-> Hall].
  split; [discriminate |].
  intros p Hp. apply elem_of_cons in Hp as [-> | Hp]; auto.
Qed.

Lemma predicate_source (select_match : FoldableSelect) (p : SourceTargetPair) :
  predicate select_match p = predicate select_match (p.1, 0%Z).
Proof. reflexivity. Qed.

Lemma uniform_on_sources (select_match : FoldableSelect) (pairs : SourceTargetPairs)
    (b : bool) :
  (forall p, p ∈ pairs -> predicate select_match p = b) <->
  (forall s, s ∈ pairs.*1 -> predicate select_match (s, 0%Z) = b).
Proof.
  split.
  - intros Hall s Hs. apply list_elem_of_fmap in Hs as (p & -> & Hp).
    rewrite <- predicate_source. now apply Hall.
  - intros Hall p Hp. rewrite predicate_source. apply Hall.
    apply list_elem_of_fmap. eauto.
Qed.

(** X1. The evaluator's answer depends only on the set of source ids of the
    routing table: targets, order and repetitions do not matter. *)
Theorem evaluator_depends_on_sources_only (NDEBUG : bool)
    (select_match : FoldableSelect) (pairs pairs' : SourceTargetPairs) :
  same_sources pairs pairs' ->
  StaticallyEvaluatePredicateForAllSourceIDs NDEBUG select_match pairs =
  StaticallyEvaluatePredicateForAllSourceIDs NDEBUG select_match pairs'.
Proof.
  intros Hsame.
  destruct pairs as [| first rest].
  { destruct pairs' as [| first' rest']; [reflexivity |].
    exfalso. assert (H : first'.1 ∈ ([] : SourceTargetPairs).*1).
    { apply Hsame. simpl. now left. }
    inversion H. }
  destruct pairs' as [| first' rest'].
  { exfalso. assert (H : first.1 ∈ ([] : SourceTargetPairs).*1).
    { apply Hsame. simpl. now left. }
    inversion H. }
  unfold StaticallyEvaluatePredicateForAllSourceIDs.
  destruct (assert NDEBUG _) as [[] | |]; cbn [obind]; try reflexivity.
  f_equal.
  assert (Hiff : forall b,
            same_for_all select_match (predicate select_match first) rest = Some b <->
            same_for_all select_match (predicate select_match first') rest' = Some b).
  { intros b. rewrite !same_for_all_uniform, !uniform_on_sources.
    split; intros Hall s Hs; apply Hall; now apply Hsame. }
  destruct (same_for_all select_match (predicate select_match first) rest) as [b |],
           (same_for_all select_match (predicate select_match first') rest') as [b' |];
    try reflexivity.
  - symmetry. now apply Hiff.
  - symmetry. now apply Hiff.
  - now apply Hiff.
Qed.

(** ** What a step and a run can and cannot do *)

Section Further.

Variable NDEBUG : bool.
Variable GetCollectiveOpGroupMode :
  bool -> option bool -> StatusOr CollectiveOpGroupMode.

Local Abbreviation TryFold := (TryFoldColectivePermuteOfSelect NDEBUG GetCollectiveOpGroupMode).
Local Abbreviation decision := (fold_decision NDEBUG GetCollectiveOpGroupMode).
Local Abbreviation loop := (for_each_instruction NDEBUG GetCollectiveOpGroupMode).
Local Abbreviation comps := (for_each_computation NDEBUG GetCollectiveOpGroupMode).
Local Abbreviation RunPass := (Run NDEBUG GetCollectiveOpGroupMode).

Lemma decision_Some_inv (cp : HloInstruction)
    (matched : Outcome (option FoldableSelect)) (new_operand : InstId) :
  decision cp matched = Ok (Some new_operand) ->
  exists select_match value,
    matched = Ok (Some select_match) /\
    GetCollectiveOpGroupMode (bool_decide (is_Some (channel_id cp))) None =
      OkValue (collective_mode select_match) /\
    StaticallyEvaluatePredicateForAllSourceIDs NDEBUG select_match
      (source_target_pairs cp) = Ok (Some value) /\
    new_operand = (if value then true_operand select_match
                   else false_operand select_match).
Proof.
  unfold fold_decision.
  destruct matched as [[select_match |] | |]; cbn [obind]; try discriminate.
  destruct (GetCollectiveOpGroupMode _ None) as [mode |] eqn:Hmode;
    cbn [of_status_or obind]; [| discriminate].
  destruct (bool_decide (mode = collective_mode select_match)) eqn:Heq;
    cbn [negb]; [| discriminate].
  apply bool_decide_eq_true in Heq. subst mode.
  destruct (StaticallyEvaluatePredicateForAllSourceIDs _ _ _) as [[value |] | |] eqn:Hev;
    cbn [obind]; try discriminate.
  intros [= <-]. exists select_match, value. auto.
Qed.

Lemma decision_Error_inv (cp : HloInstruction)
    (matched : Outcome (option FoldableSelect)) (st : Status) :
  decision cp matched = Error st ->
  matched = Error st \/
  exists select_match,
    matched = Ok (Some select_match) /\
    GetCollectiveOpGroupMode (bool_decide (is_Some (channel_id cp))) None = NotOk st.
Proof.
  unfold fold_decision.
  destruct matched as [[select_match |] | st' |]; cbn [obind]; try discriminate.
  - destruct (GetCollectiveOpGroupMode _ None) as [mode | st'] eqn:Hmode;
      cbn [of_status_or obind].
    + destruct (negb _); [discriminate |].
      destruct (StaticallyEvaluatePredicateForAllSourceIDs _ _ _) as [[value |] | st' | f]
        eqn:Hev; cbn [obind]; try discriminate.
      unfold StaticallyEvaluatePredicateForAllSourceIDs in Hev.
      destruct (source_target_pairs cp); [discriminate |].
      unfold assert in Hev. destruct (NDEBUG || _); discriminate.
    + intros [= ->]. right. eauto.
  - intros [= ->]. now left.
Qed.

Lemma MatchFoldableSelect_no_error (c : HloComputation) (select : InstId) (st : Status) :
  MatchFoldableSelect c select <> Error st.
Proof.
  unfold MatchFoldableSelect, operand, instruction.
  repeat (first
    [ discriminate
    | match goal with
      | |- context [match ?x with _ => _ end] =>
        match x with
        | context [match _ with _ => _ end] => fail 1
        | _ => destruct x
        end
      | |- context [if ?x then _ else _] =>
        match x with
        | context [if _ then _ else _] => fail 1
        | context [match _ with _ => _ end] => fail 1
        | _ => destruct x
        end
      end; cbn [obind negb] ]).
Qed.

(** X2. A step rewrites only a collective-permute whose operand has the
    foldable shape, whose group mode is the one of the predicate, and whose
    routing table is non-empty with the predicate taking one value [value] at
    every pair; slot 0 then holds the true branch if [value] is true and the
    false branch otherwise. *)
Theorem rewrite_only_on_uniform_predicate (c c' : HloComputation) (p : InstId) :
  TryFold p c = (Ok true, c') ->
  exists cp cp' s select_match value,
    c !! p = Some cp /\ opcode cp = kCollectivePermute /\
    operands cp !! 0 = Some s /\
    foldable_shape c s select_match /\
    GetCollectiveOpGroupMode (bool_decide (is_Some (channel_id cp))) None =
      OkValue (collective_mode select_match) /\
    source_target_pairs cp <> [] /\
    (forall st_pair, st_pair ∈ source_target_pairs cp ->
       predicate select_match st_pair = value) /\
    c' !! p = Some cp' /\
    operands cp' = <[0 := if value then true_operand select_match
                          else false_operand select_match]> (operands cp).
Proof.
  intros Hrun.
  destruct (TryFold_rewritten _ _ _ _ _ Hrun)
    as (cp & s & n & cp' & Hp & Hop & H0 & Hd & Hp' & _ & Hops & _).
  destruct (decision_Some_inv _ _ _ Hd) as (select_match & value & Hm & Hmode & Hev & ->).
  destruct (evaluate_Some _ _ _ _ Hev) as [Hne Hall].
  exists cp, cp', s, select_match, value.
  split; [exact Hp |]. split; [exact Hop |]. split; [exact H0 |].
  split; [now apply MatchFoldableSelect_sound |].
  split; [exact Hmode |]. split; [exact Hne |]. split; [exact Hall |].
  split; [exact Hp' | exact Hops].
Qed.

(** X3. A collective-permute with an empty routing table is never
    rewritten: whatever the step returns, it is not changed=true and the
    computation is as before. *)
Theorem empty_table_never_folds (c c' : HloComputation) (p : InstId)
    (cp : HloInstruction) (r : Outcome bool) :
  c !! p = Some cp -> source_target_pairs cp = [] ->
  TryFold p c = (r, c') ->
  r <> Ok true /\ c' = c.
Proof.
  intros Hp Hempty Hrun.
  destruct (TryFold_cases _ _ _ _ _ _ Hrun) as [H | (cp0 & s & n & -> & _)];
    [exact H |].
  destruct (rewrite_only_on_uniform_predicate _ _ _ Hrun)
    as (cp1 & cp1' & s1 & fs & value & Hp1 & _ & _ & _ & _ & Hne & _).
  assert (cp1 = cp) as -> by congruence. contradiction.
Qed.

Lemma TryFold_Error_inv (c c' : HloComputation) (p : InstId) (st : Status) :
  TryFold p c = (Error st, c') ->
  c' = c /\
  exists cp s select_match,
    c !! p = Some cp /\ opcode cp = kCollectivePermute /\
    operands cp !! 0 = Some s /\
    MatchFoldableSelect c s = Ok (Some select_match) /\
    GetCollectiveOpGroupMode (bool_decide (is_Some (channel_id cp))) None = NotOk st.
Proof.
  intros Hrun.
  destruct (TryFold_cases _ _ _ _ _ _ Hrun) as [[_ ->] | (cp0 & s & n & Hr & _)];
    [| discriminate].
  split; [reflexivity |].
  destruct (c !! p) as [cp |] eqn:Hp.
  2:{ rewrite TryFold_dangling in Hrun by exact Hp. discriminate. }
  destruct (decide (opcode cp = kCollectivePermute)) as [Hop | Hop].
  2:{ rewrite (TryFold_not_permute _ _ _ _ _ Hp Hop) in Hrun. discriminate. }
  destruct (operands cp !! 0) as [s |] eqn:H0.
  2:{ rewrite (TryFold_no_operand _ _ _ _ _ Hp Hop H0) in Hrun. discriminate. }
  rewrite (TryFold_decision _ _ _ _ _ _ Hp Hop H0) in Hrun.
  destruct (decision cp (MatchFoldableSelect c s)) as [[n |] | st' | f] eqn:Hd;
    try discriminate.
  - destruct (ReplaceOperandWith_cases p 0 n c)
      as [Hab | (inst & c1 & _ & _ & _ & Hrep & _)].
    + rewrite Hab in Hrun. discriminate.
    + rewrite Hrep in Hrun. discriminate.
  - injection Hrun as ->.
    destruct (decision_Error_inv _ _ _ Hd) as [Hm | (select_match & Hm & Hmode)].
    + now apply MatchFoldableSelect_no_error in Hm.
    + exists cp, s, select_match. auto.
Qed.

Lemma loop_Error_inv (ids : list InstId) (changed : bool) (c c' : HloComputation)
    (st : Status) :
  loop ids changed c = (Error st, c') ->
  exists pre p post changed1,
    ids = pre ++ p :: post /\
    loop pre changed c = (Ok changed1, c') /\
    TryFold p c' = (Error st, c').
Proof.
  revert changed c. induction ids as [| q rest IH]; intros changed c Hrun.
  - discriminate.
  - rewrite loop_cons in Hrun.
    destruct (TryFold q c) as [[b | st' | f] c1] eqn:Hstep; try discriminate.
    + destruct (IH _ _ Hrun) as (pre & p & post & ch1 & -> & Hpre & Hp).
      exists (q :: pre), p, post, ch1. split; [reflexivity |].
      split; [| exact Hp]. rewrite loop_cons, Hstep. exact Hpre.
    + injection Hrun as -> <-.
      destruct (TryFold_Error_inv _ _ _ _ Hstep) as [-> _].
      exists [], q, rest, changed. auto.
Qed.



Lemma loop_unchanged (ids : list InstId) (changed : bool) (c c' : HloComputation) :
  loop ids changed c = (Ok false, c') -> changed = false /\ c' = c.
Proof.
  revert changed c. induction ids as [| p rest IH]; intros changed c Hrun.
  - injection Hrun as -> <-. auto.
  - rewrite loop_cons in Hrun.
    destruct (TryFold p c) as [[b | st | f] c1] eqn:Hstep; try discriminate.
    destruct (IH _ _ Hrun) as [Hflag ->].
    apply orb_false_iff in Hflag as [-> ->].
    split; [reflexivity |].
    destruct (TryFold_cases _ _ _ _ _ _ Hstep) as [[_ ->] | (cp & s & n & Hr & _)];
      [reflexivity | discriminate].
Qed.

Lemma comps_unchanged (m m' : HloModule) (changed : bool) :
  comps m changed = (Ok false, m') -> changed = false /\ m' = m.
Proof.
  revert changed m'. induction m as [| c rest IH]; intros changed m' Hrun.
  - injection Hrun as -> <-. auto.
  - simpl in Hrun.
    destruct (loop (instructions c) changed c) as [[ch | st | f] c1] eqn:Hsweep;
      try discriminate.
    destruct (comps rest ch) as [r rest'] eqn:Htail.
    injection Hrun as -> <-.
    destruct (IH _ _ Htail) as [-> ->].
    destruct (loop_unchanged _ _ _ _ Hsweep) as [-> ->]. auto.
Qed.

(** X5. The changed flag is honest: a run that returns changed=false has
    left the module exactly as it was, user lists included. *)
Theorem unchanged_flag_means_unchanged_module (module module' : HloModule)
    (execution_threads : gset string) :
  Run NDEBUG GetCollectiveOpGroupMode module execution_threads = (Ok false, module') ->
  module' = module.
Proof.
  intros Hrun. unfold Run in Hrun. now apply comps_unchanged in Hrun.
Qed.

(** X6. A run, whatever its outcome, changes the matcher's answer on no
    instruction: what was foldable stays foldable with the same record, and
    nothing becomes foldable. *)
Theorem run_preserves_matcher_answers (module module' : HloModule)
    (r : Outcome bool) (execution_threads : gset string) :
  RunPass module execution_threads = (r, module') ->
  Forall2 (fun c c' => forall select,
             MatchFoldableSelect c' select = MatchFoldableSelect c select)
    module module'.
Proof.
  intros Hrun. unfold Run in Hrun. apply comps_frame in Hrun.
  eapply Forall2_impl; [exact Hrun |].
  intros c c' Hf select. now apply MatchFoldableSelect_frame.
Qed.

Lemma foldable_shape_branches (c : HloComputation) (s : InstId)
    (select_match : FoldableSelect) :
  foldable_shape c s select_match ->
  exists sel, c !! s = Some sel /\
    true_operand select_match ∈ operands sel /\
    false_operand select_match ∈ operands sel.
Proof.
  intros [sel cmpi id_inst k pred cmp id_op k_op Hsel _ _ H1 H2].
  exists sel. split; [exact Hsel |].
  split; apply list_elem_of_lookup; eauto.
Qed.

Lemma TryFold_topological (rank : InstId -> nat) (c c' : HloComputation)
    (p : InstId) (r : Outcome bool) :
  topological rank c -> TryFold p c = (r, c') -> topological rank c'.
Proof.
  intros Htop Hrun.
  destruct (TryFold_cases _ _ _ _ _ _ Hrun)
    as [[_ ->] | (cp & s & n & _ & Hp & Hop & H0 & Hd & _ & _ & Hfr)];
    [exact Htop |].
  destruct (decision_Some_inv _ _ _ Hd) as (select_match & value & Hm & _ & _ & Hn).
  destruct (foldable_shape_branches _ _ _ (MatchFoldableSelect_sound _ _ _ Hm))
    as (sel & Hsel & Ht & Hf).
  assert (Hs : s ∈ operands cp) by (apply list_elem_of_lookup; eauto).
  assert (Hnew : rank n < rank p).
  { pose proof (Htop _ _ _ Hp Hs) as Hsp.
    assert (Hns : rank n < rank s).
    { rewrite Hn. destruct value; eapply Htop; eassumption. }
    lia. }
  intros q j' x Hq Hx.
  destruct (Forall2_lookup_r _ _ _ _ _ Hfr Hq) as (j1 & Hj1 & _ & Hops & _).
  rewrite Hops in Hx.
  destruct (decide (q = p)) as [-> | Hne].
  - rewrite list_lookup_alter_eq, Hp in Hj1. injection Hj1 as <-. simpl in Hx.
    apply elem_of_insert_inv in Hx as [-> | Hx]; [exact Hnew |].
    eapply Htop; eassumption.
  - rewrite list_lookup_alter_ne in Hj1 by congruence.
    eapply Htop; eassumption.
Qed.

Lemma loop_topological (rank : InstId -> nat) (ids : list InstId) (changed : bool)
    (c c' : HloComputation) (r : Outcome bool) :
  topological rank c -> loop ids changed c = (r, c') -> topological rank c'.
Proof.
  revert changed c. induction ids as [| p rest IH]; intros changed c Htop Hrun.
  - now injection Hrun as <- <-.
  - rewrite loop_cons in Hrun.
    destruct (TryFold p c) as [r1 c1] eqn:Hstep.
    pose proof (TryFold_topological _ _ _ _ _ Htop Hstep) as Htop1.
    destruct r1 as [b | st | f].
    + eapply IH; eassumption.
    + now injection Hrun as <- <-.
    + now injection Hrun as <- <-.
Qed.

(** X7. The pass creates no cycle: an order of the instructions that puts
    every instruction after its operands still does so after the run, in
    every computation and whatever the outcome. *)
Theorem run_preserves_topological_order (module module' : HloModule)
    (r : Outcome bool) (execution_threads : gset string) :
  RunPass module execution_threads = (r, module') ->
  Forall2 (fun c c' => forall rank, topological rank c -> topological rank c')
    module module'.
Proof.
  unfold Run. generalize false as changed. revert module'.
  induction module as [| c rest IH]; intros module' changed Hrun.
  - injection Hrun as <- <-. constructor.
  - simpl in Hrun.
    destruct (loop (instructions c) changed c) as [r1 c1] eqn:Hsweep.
    assert (Hc : forall rank, topological rank c -> topological rank c1).
    { intros rank Htop. eapply loop_topological; eassumption. }
    assert (Hrest : Forall2 (fun c c' : HloComputation =>
              forall rank, topological rank c -> topological rank c') rest rest).
    { apply Forall2_same_length_lookup_2; [reflexivity |].
      intros i x y Hx Hy. assert (x = y) as -> by congruence. auto. }
    destruct r1 as [ch | st | f].
    + destruct (comps rest ch) as [r2 rest'] eqn:Htail.
      injection Hrun as <- <-. constructor; [exact Hc |]. eapply IH. exact Htail.
    + injection Hrun as <- <-. now constructor.
    + injection Hrun as <- <-. now constructor.
Qed.

(** ** A failed run is stable too *)

Lemma sweep_error_stable (changed again : bool) (c c' : HloComputation) (st : Status) :
  no_nested_foldable c ->
  loop (instructions c) changed c = (Error st, c') ->
  loop (instructions c') again c' = (Error st, c').
Proof.
  intros Hnn Hrun.
  destruct (loop_frame _ _ _ _ _ _ _ Hrun) as [Hf _].
  rewrite (instructions_frame _ _ Hf).
  destruct (loop_Error_inv _ _ _ _ _ Hrun) as (pre & p & post & ch1 & Hids & Hpre & Hstep).
  rewrite Hids, loop_app.
  assert (Hnd : NoDup pre).
  { pose proof (NoDup_seq 0 (length c)) as H. fold (instructions c) in H.
    rewrite Hids in H. now apply NoDup_app in H as [H _]. }
  rewrite (loop_settled _ _ pre again c').
  - rewrite loop_cons, Hstep. reflexivity.
  - intros q Hq. eapply loop_settles; eassumption.
Qed.

Lemma modules_error_stable (m : HloModule) :
  forall (changed again : bool) (m' : HloModule) (st : Status),
  Forall no_nested_foldable m ->
  comps m changed = (Error st, m') ->
  comps m' again = (Error st, m').
Proof.
  induction m as [| c rest IH]; intros changed again m' st Hnn Hrun.
  - discriminate.
  - apply Forall_cons in Hnn as [Hc Hrest]. simpl in Hrun.
    destruct (loop (instructions c) changed c) as [[ch1 | st1 | f] c1] eqn:Hsweep.
    + destruct (comps rest ch1) as [r rest'] eqn:Htail.
      injection Hrun as -> <-. simpl.
      rewrite (sweep_idempotent _ _ _ _ again _ _ Hc Hsweep).
      rewrite (IH _ again _ _ Hrest Htail). reflexivity.
    + injection Hrun as -> <-. simpl.
      rewrite (sweep_error_stable _ again _ _ _ Hc Hsweep). reflexivity.
    + discriminate.
Qed.

(** X8. If no branch of a foldable select is itself a foldable select and
    a run stops with an error, a second run on the module it left stops with
    the same error and changes nothing more. *)
Theorem failed_run_is_stable (module module' : HloModule)
    (execution_threads : gset string) (st : Status) :
  forallb no_nested_foldableb module = true ->
  RunPass module execution_threads = (Error st, module') ->
  RunPass module' execution_threads = (Error st, module').
Proof.
  intros Hnn Hrun. unfold Run in *.
  eapply modules_error_stable; [| exact Hrun].
  apply Forall_forall. intros c Hc. apply no_nested_foldableb_sound.
  rewrite forallb_forall in Hnn. apply Hnn. now apply list_elem_of_In.
Qed.

(** ** Well-formed graphs are never indexed out of range *)

Lemma well_formed_lookup (c : HloComputation) (p : InstId) (i : HloInstruction) :
  well_formed c = true -> c !! p = Some i ->
  arity_ok i = true /\ forall q, q ∈ operands i -> q < length c.
Proof.
  unfold well_formed. rewrite forallb_forall. intros Hall Hp.
  assert (Hin : In i c).
  { apply list_elem_of_In, list_elem_of_lookup. eauto. }
  specialize (Hall i Hin). unfold well_formed_instruction in Hall.
  apply andb_true_iff in Hall as [Ha Hr]. split; [exact Ha |].
  rewrite forallb_forall in Hr. intros q Hq.
  apply list_elem_of_In in Hq. specialize (Hr q Hq).
  now apply bool_decide_eq_true in Hr.
Qed.

Lemma well_formed_intro (c : HloComputation) :
  (forall p i, c !! p = Some i ->
     arity_ok i = true /\ forall q, q ∈ operands i -> q < length c) ->
  well_formed c = true.
Proof.
  intros Hall. unfold well_formed. rewrite forallb_forall. intros i Hi.
  apply list_elem_of_In, list_elem_of_lookup in Hi as [p Hp].
  destruct (Hall p i Hp) as [Ha Hr]. unfold well_formed_instruction.
  rewrite Ha. simpl. rewrite forallb_forall. intros q Hq.
  apply bool_decide_eq_true. apply Hr. now apply list_elem_of_In.
Qed.

Lemma well_formed_operand (c : HloComputation) (p : InstId) (i : HloInstruction)
    (k : nat) :
  well_formed c = true -> c !! p = Some i -> k < length (operands i) ->
  exists q, operand c p k = Ok q /\ operands i !! k = Some q /\ q < length c.
Proof.
  intros Hwf Hp Hk.
  destruct (lookup_lt_is_Some_2 (operands i) k Hk) as [q Hq].
  exists q. split; [exact (operand_Some _ _ _ _ _ Hp Hq) |]. split; [exact Hq |].
  apply (proj2 (well_formed_lookup _ _ _ Hwf Hp)).
  apply list_elem_of_lookup. eauto.
Qed.

Lemma arity_select (i : HloInstruction) :
  arity_ok i = true -> opcode i = kSelect -> length (operands i) = 3.
Proof.
  unfold arity_ok. intros H Ho. rewrite Ho in H.
  now apply bool_decide_eq_true in H.
Qed.

Lemma arity_broadcast (i : HloInstruction) :
  arity_ok i = true -> opcode i = kBroadcast -> length (operands i) = 1.
Proof.
  unfold arity_ok. intros H Ho. rewrite Ho in H.
  now apply bool_decide_eq_true in H.
Qed.

Lemma arity_compare (i : HloInstruction) :
  arity_ok i = true -> opcode i = kCompare -> length (operands i) = 2.
Proof.
  unfold arity_ok. intros H Ho. rewrite Ho in H.
  now apply bool_decide_eq_true in H.
Qed.

Lemma arity_permute (i : HloInstruction) :
  arity_ok i = true -> opcode i = kCollectivePermute -> 1 <= length (operands i).
Proof.
  unfold arity_ok. intros H Ho. rewrite Ho in H.
  now apply bool_decide_eq_true in H.
Qed.

Lemma MatchFoldableSelect_well_formed (c : HloComputation) (select : InstId) :
  well_formed c = true -> select < length c ->
  exists r, MatchFoldableSelect c select = Ok r.
Proof.
  intros Hwf Hlt. unfold MatchFoldableSelect.
  destruct (lookup_lt_is_Some_2 c select Hlt) as [sel Hsel].
  rewrite (instruction_Some _ _ _ Hsel). cbn [obind].
  destruct (bool_decide (opcode sel = kSelect)) eqn:Hop; cbn [negb];
    [| eexists; reflexivity].
  apply bool_decide_eq_true in Hop.
  pose proof (arity_select _ (proj1 (well_formed_lookup _ _ _ Hwf Hsel)) Hop) as Hlen.
  destruct (well_formed_operand c select sel 0 Hwf Hsel) as (pred & -> & _ & Hpred);
    [lia |].
  destruct (well_formed_operand c select sel 1 Hwf Hsel) as (t & Ht & _ & _); [lia |].
  destruct (well_formed_operand c select sel 2 Hwf Hsel) as (f & Hf & _ & _); [lia |].
  cbn [obind].
  destruct (lookup_lt_is_Some_2 c pred Hpred) as [pc Hpc].
  rewrite (instruction_Some _ _ _ Hpc). cbn [obind].
  assert (Hun : exists cmp,
            (if bool_decide (opcode pc = kBroadcast) then operand c pred 0
             else Ok pred) = Ok cmp /\ cmp < length c).
  { destruct (bool_decide (opcode pc = kBroadcast)) eqn:Hb; [| eauto].
    apply bool_decide_eq_true in Hb.
    pose proof (arity_broadcast _ (proj1 (well_formed_lookup _ _ _ Hwf Hpc)) Hb) as Hl.
    destruct (well_formed_operand c pred pc 0 Hwf Hpc) as (cmp & Hc & _ & Hr); [lia |].
    eauto. }
  destruct Hun as (cmp & -> & Hcmp). cbn [obind].
  destruct (lookup_lt_is_Some_2 c cmp Hcmp) as [cmpi Hcmpi].
  rewrite (instruction_Some _ _ _ Hcmpi). cbn [obind].
  destruct (bool_decide (opcode cmpi = kCompare)) eqn:Hcop; cbn [negb];
    [| eexists; reflexivity].
  apply bool_decide_eq_true in Hcop.
  pose proof (arity_compare _ (proj1 (well_formed_lookup _ _ _ Hwf Hcmpi)) Hcop) as Hl.
  destruct (well_formed_operand c cmp cmpi 0 Hwf Hcmpi) as (id_op & -> & _ & Hid);
    [lia |].
  destruct (well_formed_operand c cmp cmpi 1 Hwf Hcmpi) as (k_op & -> & _ & Hk);
    [lia |].
  cbn [obind].
  destruct (lookup_lt_is_Some_2 c id_op Hid) as [id_inst Hidi].
  rewrite (instruction_Some _ _ _ Hidi). cbn [obind].
  destruct (if bool_decide (opcode id_inst = kReplicaId) then _ else _);
    [| eexists; reflexivity].
  destruct (lookup_lt_is_Some_2 c k_op Hk) as [k Hki].
  rewrite (instruction_Some _ _ _ Hki). cbn [obind].
  destruct (negb _); [eexists; reflexivity |].
  destruct (GetFirstInteger _); [| eexists; reflexivity].
  rewrite Ht, Hf. cbn [obind]. eexists. reflexivity.
Qed.

Lemma MatchFoldableSelect_abort_kind (c : HloComputation) (select : InstId) (f : Fault) :
  MatchFoldableSelect c select = Abort f -> f = BadAccess.
Proof.
  unfold MatchFoldableSelect, operand, instruction.
  repeat (first
    [ discriminate
    | intros [= <-]; reflexivity
    | match goal with
      | |- context [match ?x with _ => _ end] =>
        match x with
        | context [match _ with _ => _ end] => fail 1
        | _ => destruct x
        end
      | |- context [if ?x then _ else _] =>
        match x with
        | context [if _ then _ else _] => fail 1
        | context [match _ with _ => _ end] => fail 1
        | _ => destruct x
        end
      end; cbn [obind negb] ]).
Qed.

Lemma decision_abort_kind (cp : HloInstruction)
    (matched : Outcome (option FoldableSelect)) (f : Fault) :
  decision cp matched = Abort f ->
  matched = Abort f \/ (f = AssertFailed /\ NDEBUG = false).
Proof.
  unfold fold_decision.
  destruct matched as [[select_match |] | st | f']; cbn [obind]; try discriminate.
  - destruct (GetCollectiveOpGroupMode _ None) as [mode | st];
      cbn [of_status_or obind]; [| discriminate].
    destruct (negb _); [discriminate |].
    destruct (StaticallyEvaluatePredicateForAllSourceIDs _ _ _) as [[value |] | st | f']
      eqn:Hev; cbn [obind]; try discriminate.
    intros [= ->]. right.
    unfold StaticallyEvaluatePredicateForAllSourceIDs in Hev.
    destruct (source_target_pairs cp); [discriminate |].
    unfold assert in Hev. destruct NDEBUG; [discriminate |].
    cbn [orb] in Hev. destruct (_ || _); cbn [obind] in Hev; [discriminate |].
    injection Hev as <-. auto.
  - intros [= ->]. now left.
Qed.

Lemma TryFold_abort_kind (c c' : HloComputation) (p : InstId) (f : Fault) :
  TryFold p c = (Abort f, c') -> f = BadAccess \/ NDEBUG = false.
Proof.
  intros Hrun.
  destruct (c !! p) as [cp |] eqn:Hp.
  2:{ rewrite TryFold_dangling in Hrun by exact Hp. injection Hrun as <- _. now left. }
  destruct (decide (opcode cp = kCollectivePermute)) as [Hop | Hop].
  2:{ rewrite (TryFold_not_permute _ _ _ _ _ Hp Hop) in Hrun. discriminate. }
  destruct (operands cp !! 0) as [s |] eqn:H0.
  2:{ rewrite (TryFold_no_operand _ _ _ _ _ Hp Hop H0) in Hrun.
      injection Hrun as <- _. now left. }
  rewrite (TryFold_decision _ _ _ _ _ _ Hp Hop H0) in Hrun.
  destruct (decision cp (MatchFoldableSelect c s)) as [[n |] | st' | f'] eqn:Hd;
    try discriminate.
  - destruct (ReplaceOperandWith_cases p 0 n c)
      as [Hab | (inst & c1 & _ & _ & _ & Hrep & _)].
    + rewrite Hab in Hrun. injection Hrun as <- _. now left.
    + rewrite Hrep in Hrun. discriminate.
  - injection Hrun as -> _.
    destruct (decision_abort_kind _ _ _ Hd) as [Hm | [_ Hn]]; [| now right].
    left. now apply MatchFoldableSelect_abort_kind in Hm.
Qed.

Lemma well_formed_instruction_ext (n : nat) (j j' : HloInstruction) :
  opcode j' = opcode j -> operands j' = operands j ->
  well_formed_instruction n j' = well_formed_instruction n j.
Proof.
  intros Ho Hops. unfold well_formed_instruction, arity_ok. now rewrite Ho, Hops.
Qed.

(** On a well-formed computation a step reads and writes in range, and
    leaves a well-formed computation. *)
Lemma TryFold_well_formed (c c' : HloComputation) (p : InstId) (r : Outcome bool) :
  well_formed c = true -> p < length c ->
  TryFold p c = (r, c') ->
  r <> Abort BadAccess /\ well_formed c' = true.
Proof.
  intros Hwf Hlt Hrun.
  destruct (lookup_lt_is_Some_2 c p Hlt) as [cp Hp].
  destruct (decide (opcode cp = kCollectivePermute)) as [Hop | Hop].
  2:{ rewrite (TryFold_not_permute _ _ _ _ _ Hp Hop) in Hrun.
      injection Hrun as <- <-. split; [discriminate | exact Hwf]. }
  destruct (well_formed_lookup _ _ _ Hwf Hp) as [Har Hrange].
  pose proof (arity_permute _ Har Hop) as Hlen.
  destruct (well_formed_operand c p cp 0 Hwf Hp) as (s & _ & H0 & Hs); [lia |].
  rewrite (TryFold_decision _ _ _ _ _ _ Hp Hop H0) in Hrun.
  destruct (MatchFoldableSelect_well_formed c s Hwf Hs) as [m Hm].
  destruct (decision cp (MatchFoldableSelect c s)) as [[n |] | st | f] eqn:Hd.
  - destruct (decision_Some_inv _ _ _ Hd) as (select_match & value & Hm' & _ & _ & Hn).
    destruct (foldable_shape_branches _ _ _ (MatchFoldableSelect_sound _ _ _ Hm'))
      as (sel & Hsel & Ht & Hf).
    assert (Hnr : n < length c).
    { rewrite Hn. destruct value;
        apply (proj2 (well_formed_lookup _ _ _ Hwf Hsel)); assumption. }
    destruct (ReplaceOperandWith_Ok p 0 n s cp c Hp H0 (lookup_lt_is_Some_2 _ _ Hnr))
      as (c1 & Hrep & Hfr).
    rewrite Hrep in Hrun. injection Hrun as <- <-.
    split; [discriminate |].
    assert (Hlen1 : length c1 = length c).
    { rewrite <- (Forall2_length _ _ _ Hfr). apply length_alter. }
    apply well_formed_intro. intros q j' Hq. rewrite Hlen1.
    destruct (Forall2_lookup_r _ _ _ _ _ Hfr Hq) as (j1 & Hj1 & Ho & Hops & _).
    assert (Hj1wf : arity_ok j1 = true /\ forall x, x ∈ operands j1 -> x < length c).
    { destruct (decide (q = p)) as [-> | Hne].
      - rewrite list_lookup_alter_eq, Hp in Hj1. injection Hj1 as <-. split.
        + unfold arity_ok. simpl. rewrite Hop.
          apply bool_decide_eq_true. rewrite length_insert. exact Hlen.
        + simpl. intros x Hx.
          apply elem_of_insert_inv in Hx as [-> | Hx]; [exact Hnr | now apply Hrange].
      - rewrite list_lookup_alter_ne in Hj1 by congruence.
        exact (well_formed_lookup _ _ _ Hwf Hj1). }
    destruct Hj1wf as [Ha Hr]. split.
    + unfold arity_ok in *. now rewrite Ho, Hops.
    + rewrite Hops. exact Hr.
  - injection Hrun as <- <-. split; [discriminate | exact Hwf].
  - injection Hrun as <- <-. split; [discriminate | exact Hwf].
  - injection Hrun as <- <-. split; [| exact Hwf].
    intros [= ->].
    destruct (decision_abort_kind _ _ _ Hd) as [Habs | [Habs _]]; congruence.
Qed.

Lemma loop_well_formed (ids : list InstId) (changed : bool) (c c' : HloComputation)
    (r : Outcome bool) :
  well_formed c = true -> (forall q, q ∈ ids -> q < length c) ->
  loop ids changed c = (r, c') ->
  r <> Abort BadAccess /\ well_formed c' = true.
Proof.
  revert changed c. induction ids as [| p rest IH]; intros changed c Hwf Hids Hrun.
  - injection Hrun as <- <-. split; [discriminate | exact Hwf].
  - rewrite loop_cons in Hrun.
    destruct (TryFold p c) as [r1 c1] eqn:Hstep.
    destruct (TryFold_well_formed _ _ _ _ Hwf (Hids p ltac:(now left)) Hstep)
      as [Hr1 Hwf1].
    pose proof (Forall2_length _ _ _ (TryFold_frame _ _ _ _ _ _ Hstep)) as Hlen.
    destruct r1 as [b | st | f].
    + apply (IH (changed || b) c1 Hwf1); [| exact Hrun].
      intros q Hq. rewrite <- Hlen. apply Hids. now right.
    + injection Hrun as <- <-. split; [discriminate | exact Hwf1].
    + injection Hrun as <- <-. split; [exact Hr1 | exact Hwf1].
Qed.

Lemma loop_abort_kind (ids : list InstId) (changed : bool) (c c' : HloComputation)
    (f : Fault) :
  loop ids changed c = (Abort f, c') -> f = BadAccess \/ NDEBUG = false.
Proof.
  revert changed c. induction ids as [| p rest IH]; intros changed c Hrun.
  - discriminate.
  - rewrite loop_cons in Hrun.
    destruct (TryFold p c) as [[b | st | f'] c1] eqn:Hstep; try discriminate.
    + eapply IH. exact Hrun.
    + injection Hrun as -> _. eapply TryFold_abort_kind. exact Hstep.
Qed.

(** X9. On a module whose instructions have the operand counts the pass
    indexes (select 3, broadcast 1, compare 2, collective-permute at least 1)
    and operands inside their computation, a run never reads or writes out
    of range and leaves such a module; in a release build it does not abort
    at all. *)
Theorem run_never_faults_on_well_formed (module module' : HloModule)
    (r : Outcome bool) (execution_threads : gset string) :
  forallb well_formed module = true ->
  RunPass module execution_threads = (r, module') ->
  r <> Abort BadAccess /\
  (NDEBUG = true -> forall f, r <> Abort f) /\
  forallb well_formed module' = true.
Proof.
  unfold Run. generalize false as changed. revert module' r.
  induction module as [| c rest IH]; intros module' r changed Hwf Hrun.
  - injection Hrun as <- <-. repeat split; try discriminate.
  - simpl in Hwf. apply andb_true_iff in Hwf as [Hc Hrest]. simpl in Hrun.
    destruct (loop (instructions c) changed c) as [r1 c1] eqn:Hsweep.
    assert (Hids : forall q, q ∈ instructions c -> q < length c).
    { intros q Hq. apply elem_of_seq in Hq. lia. }
    destruct (loop_well_formed _ _ _ _ _ Hc Hids Hsweep) as [Hr1 Hc1].
    destruct r1 as [ch | st | f].
    + destruct (comps rest ch) as [r2 rest'] eqn:Htail.
      injection Hrun as <- <-.
      destruct (IH _ _ _ Hrest Htail) as (H1 & H2 & H3).
      split; [exact H1 |]. split; [exact H2 |].
      simpl. now rewrite Hc1, H3.
    + injection Hrun as <- <-.
      split; [discriminate |]. split; [discriminate |].
      simpl. now rewrite Hc1, Hrest.
    + injection Hrun as <- <-.
      split; [exact Hr1 |]. split.
      * intros Hnd f' [= <-].
        destruct (loop_abort_kind _ _ _ _ _ Hsweep) as [-> | Hdbg];
          [now contradiction Hr1 | congruence].
      * simpl. now rewrite Hc1, Hrest.
Qed.


(** ** The sweep rewires each instruction independently *)

Lemma step_operands (c c1 : HloComputation) (p : InstId) (b : bool)
    (i : HloInstruction) :
  TryFold p c = (Ok b, c1) -> c !! p = Some i ->
  exists i1, c1 !! p = Some i1 /\
    operands i1 = rewired_operands NDEBUG GetCollectiveOpGroupMode c i.
Proof.
  intros Hrun Hp. unfold rewired_operands.
  destruct (TryFold_cases _ _ _ _ _ _ Hrun) as [[Hne ->] | (cp & s & n & Hb & _)].
  - exists i. split; [exact Hp |].
    destruct (bool_decide (opcode i = kCollectivePermute)) eqn:Hop; [| reflexivity].
    apply bool_decide_eq_true in Hop.
    destruct (operands i !! 0) as [s |] eqn:H0; [| reflexivity].
    rewrite (TryFold_decision _ _ _ _ _ _ Hp Hop H0) in Hrun.
    destruct (decision i (MatchFoldableSelect c s)) as [[n |] | |]; try reflexivity.
    exfalso.
    destruct (ReplaceOperandWith p 0 n c) as [[[] | |] c2];
      injection Hrun as Hb; try discriminate. subst b. now apply Hne.
  - injection Hb as ->.
    destruct (TryFold_rewritten _ _ _ _ _ Hrun)
      as (cp0 & s0 & n0 & i1 & Hp0 & Hop & H0 & Hd & Hp' & _ & Hops & _).
    assert (cp0 = i) as -> by congruence.
    exists i1. split; [exact Hp' |].
    rewrite bool_decide_eq_true_2 by exact Hop. rewrite H0, Hd. exact Hops.
Qed.

Lemma rewired_operands_frame (c c1 : HloComputation) (i i1 : HloInstruction) :
  pass_frame c c1 -> same_but_users i i1 ->
  rewired_operands NDEBUG GetCollectiveOpGroupMode c1 i1 =
  rewired_operands NDEBUG GetCollectiveOpGroupMode c i.
Proof.
  intros Hf (Ho & Hops & _ & _ & Hch & Hst). unfold rewired_operands.
  rewrite Ho, Hops.
  destruct (bool_decide _); [| reflexivity].
  destruct (operands i !! 0) as [s |]; [| reflexivity].
  rewrite (MatchFoldableSelect_frame _ _ _ Hf).
  unfold fold_decision. now rewrite Hch, Hst.
Qed.

Lemma loop_pointwise (ids : list InstId) (changed changed' : bool)
    (c c' : HloComputation) :
  NoDup ids -> loop ids changed c = (Ok changed', c') ->
  forall p i, c !! p = Some i ->
    exists i', c' !! p = Some i' /\
      operands i' = if decide (p ∈ ids)
                    then rewired_operands NDEBUG GetCollectiveOpGroupMode c i
                    else operands i.
Proof.
  revert changed c. induction ids as [| q rest IH]; intros changed c Hnd Hrun p i Hp.
  - injection Hrun as _ <-. exists i. split; [exact Hp |].
    rewrite decide_False; [reflexivity | apply not_elem_of_nil].
  - apply NoDup_cons in Hnd as [Hq Hnd]. rewrite loop_cons in Hrun.
    destruct (TryFold q c) as [[b | st | f] c1] eqn:Hstep; try discriminate.
    pose proof (TryFold_frame _ _ _ _ _ _ Hstep) as Hf.
    destruct (decide (p = q)) as [-> | Hne].
    + destruct (step_operands _ _ _ _ _ Hstep Hp) as (i1 & Hp1 & Hops1).
      destruct (IH _ _ Hnd Hrun _ _ Hp1) as (i' & Hp' & Hops').
      exists i'. split; [exact Hp' |].
      rewrite decide_False in Hops' by exact Hq.
      rewrite decide_True by now left. congruence.
    + destruct (TryFold_other _ _ _ _ _ _ _ _ Hstep Hne Hp) as (i1 & Hp1 & Hsame).
      destruct (IH _ _ Hnd Hrun _ _ Hp1) as (i' & Hp' & Hops').
      exists i'. split; [exact Hp' |]. rewrite Hops'.
      destruct (decide (p ∈ rest)) as [Hin | Hout].
      * rewrite decide_True by now right.
        now apply rewired_operands_frame.
      * rewrite decide_False.
        -- now destruct Hsame as (_ & -> & _).
        -- intros Hin. apply elem_of_cons in Hin as [-> | Hin]; contradiction.
Qed.

(** X10. A successful run rewires every instruction independently: in the
    module it returns, each instruction has the operand list decided for it
    on the module the run received, that is slot 0 replaced for a
    collective-permute that folds and the old operands otherwise. Earlier
    rewrites do not influence later ones. *)
Theorem successful_run_rewires_pointwise (module module' : HloModule)
    (changed : bool) (execution_threads : gset string) :
  RunPass module execution_threads = (Ok changed, module') ->
  Forall2 (fun c c' =>
             forall p i, c !! p = Some i ->
               exists i', c' !! p = Some i' /\
                 operands i' = rewired_operands NDEBUG GetCollectiveOpGroupMode c i)
    module module'.
Proof.
  unfold Run. generalize false as flag. revert module'.
  induction module as [| c rest IH]; intros module' flag Hrun.
  - injection Hrun as _ <-. constructor.
  - simpl in Hrun.
    destruct (loop (instructions c) flag c) as [[ch | st | f] c1] eqn:Hsweep;
      try discriminate.
    destruct (comps rest ch) as [r rest'] eqn:Htail.
    injection Hrun as -> <-. constructor; [| eapply IH; exact Htail].
    intros p i Hp.
    destruct (loop_pointwise _ _ _ _ _ (NoDup_seq 0 (length c)) Hsweep _ _ Hp)
      as (i' & Hp' & Hops).
    exists i'. split; [exact Hp' |].
    rewrite decide_True in Hops; [exact Hops |].
    apply elem_of_seq. apply lookup_lt_Some in Hp. lia.
Qed.

(** X11. With direction equal and two senders of different ids the
    evaluator never answers true, and with any other direction it never
    answers false: at most one source id can equal the constant. *)
Theorem two_senders_limit_the_answer (select_match : FoldableSelect)
    (pairs : SourceTargetPairs) (p q : SourceTargetPair) :
  p ∈ pairs -> q ∈ pairs -> p.1 <> q.1 ->
  (cmp_direction select_match = kEq ->
   StaticallyEvaluatePredicateForAllSourceIDs NDEBUG select_match pairs <>
     Ok (Some true)) /\
  (cmp_direction select_match <> kEq ->
   StaticallyEvaluatePredicateForAllSourceIDs NDEBUG select_match pairs <>
     Ok (Some false)).
Proof.
  intros Hp Hq Hne. split; intros Hdir Hev;
    destruct (evaluate_Some _ _ _ _ Hev) as [_ Hall];
    pose proof (Hall p Hp) as H1; pose proof (Hall q Hq) as H2;
    unfold predicate in H1, H2.
  - rewrite bool_decide_eq_true_2 in H1, H2 by exact Hdir.
    apply bool_decide_eq_true in H1, H2. congruence.
  - rewrite bool_decide_eq_false_2 in H1, H2 by exact Hdir.
    apply negb_false_iff, bool_decide_eq_true in H1, H2. congruence.
Qed.

(** X12. Whenever the operand has the foldable shape with direction equal
    or not-equal, the group modes agree and the predicate takes one value at
    every pair of a non-empty routing table, the step rewrites: it returns
    changed=true and slot 0 holds the true branch if the value is true and
    the false branch otherwise. *)
Theorem uniform_predicate_folds (c : HloComputation) (p s : InstId)
    (cp : HloInstruction) (select_match : FoldableSelect) (value : bool) :
  c !! p = Some cp -> opcode cp = kCollectivePermute ->
  operands cp !! 0 = Some s ->
  foldable_shape c s select_match ->
  valid_direction select_match ->
  GetCollectiveOpGroupMode (bool_decide (is_Some (channel_id cp))) None =
    OkValue (collective_mode select_match) ->
  source_target_pairs cp <> [] ->
  (forall st_pair, st_pair ∈ source_target_pairs cp ->
     predicate select_match st_pair = value) ->
  is_Some (c !! (if value then true_operand select_match
                 else false_operand select_match)) ->
  exists c' cp',
    TryFold p c = (Ok true, c') /\ c' !! p = Some cp' /\
    operands cp' = <[0 := if value then true_operand select_match
                          else false_operand select_match]> (operands cp).
Proof.
  intros Hp Hop H0 Hshape Hdir Hmode Hne Hall Hnew.
  assert (Hev : StaticallyEvaluatePredicateForAllSourceIDs NDEBUG select_match
                  (source_target_pairs cp) = Ok (Some value)).
  { destruct (source_target_pairs cp) as [| first rest]; [now contradiction Hne |].
    rewrite evaluate_valid_direction by exact Hdir. f_equal.
    apply same_for_all_uniform. exact Hall. }
  destruct (TryFold_folds _ _ c p s cp select_match value Hp Hop H0
              (MatchFoldableSelect_complete _ _ _ Hshape) Hmode Hev Hnew)
    as (c' & cp' & Hstep & Hp' & _ & Hops & _).
  exists c', cp'. auto.
Qed.
End Further.

(** * The further properties on the concrete modules *)

Ltac topological_by_cases :=
  let p := fresh "p" in let i := fresh "i" in let q := fresh "q" in
  let Hi := fresh "Hi" in let Hq := fresh "Hq" in
  intros p i q Hi Hq;
  repeat (destruct p as [| p];
          [simpl in Hi; injection Hi as <-; simpl in Hq;
           repeat (apply elem_of_cons in Hq as [-> | Hq]; [lia |]);
           inversion Hq |]);
  simpl in Hi; discriminate.

Lemma evaluator_depends_on_sources_only_witness :
  same_sources [(1, 0); (2, 1)]%Z [(2, 5); (1, 7); (2, 9)]%Z /\
  StaticallyEvaluatePredicateForAllSourceIDs false
    (mkFoldableSelect kNe 0 kCrossPartition 3 4) [(1, 0); (2, 1)]%Z =
  StaticallyEvaluatePredicateForAllSourceIDs false
    (mkFoldableSelect kNe 0 kCrossPartition 3 4) [(2, 5); (1, 7); (2, 9)]%Z.
Proof.
  assert (Hsame : same_sources [(1, 0); (2, 1)]%Z [(2, 5); (1, 7); (2, 9)]%Z).
  { intros s. simpl. rewrite !elem_of_cons. intuition. }
  split; [exact Hsame |].
  apply (evaluator_depends_on_sources_only false
           (mkFoldableSelect kNe 0 kCrossPartition 3 4) _ _ Hsame).
Defined.

Lemma rewrite_only_on_uniform_predicate_witness :
  exists (c' : HloComputation) cp cp' s select_match (value : bool),
    TryFoldColectivePermuteOfSelect true channel_group_mode 6 uniform_true_module =
      (Ok true, c') /\
    uniform_true_module !! 6 = Some cp /\
    operands cp !! 0 = Some s /\
    foldable_shape uniform_true_module s select_match /\
    source_target_pairs cp <> [] /\
    c' !! 6 = Some cp' /\
    operands cp' = <[0 := if value then true_operand select_match
                          else false_operand select_match]> (operands cp).
Proof.
  assert (Hstep :
    TryFoldColectivePermuteOfSelect true channel_group_mode 6 uniform_true_module =
    (Ok true,
     (TryFoldColectivePermuteOfSelect true channel_group_mode 6 uniform_true_module).2)).
  { vm_compute. reflexivity. }
  destruct (rewrite_only_on_uniform_predicate true channel_group_mode
              uniform_true_module _ 6 Hstep)
    as (cp & cp' & s & select_match & value & Hp & _ & H0 & Hshape & _ & Hne & _
        & Hp' & Hops).
  eexists. exists cp, cp', s, select_match, value.
  split; [exact Hstep |]. auto 10.
Defined.

Lemma empty_table_never_folds_witness :
  source_target_pairs (permute_inst [5] [] (Some 1%Z) []) = [] /\
  (TryFoldColectivePermuteOfSelect true channel_group_mode 6
     (select_permute kPartitionId kNe 0 (Some 1%Z) [])).1 <> Ok true /\
  (TryFoldColectivePermuteOfSelect true channel_group_mode 6
     (select_permute kPartitionId kNe 0 (Some 1%Z) [])).2 =
  select_permute kPartitionId kNe 0 (Some 1%Z) [].
Proof.
  split; [reflexivity |].
  apply (empty_table_never_folds true channel_group_mode
           (select_permute kPartitionId kNe 0 (Some 1%Z) []) _ 6
           (permute_inst [5] [] (Some 1%Z) []) _ eq_refl eq_refl).
  vm_compute. reflexivity.
Defined.


Lemma unchanged_flag_means_unchanged_module_witness :
  Run false channel_group_mode [mixed_sources_module] ∅ =
    (Ok false, (Run false channel_group_mode [mixed_sources_module] ∅).2) /\
  (Run false channel_group_mode [mixed_sources_module] ∅).2 = [mixed_sources_module].
Proof.
  assert (Hrun : Run false channel_group_mode [mixed_sources_module] ∅ =
            (Ok false, (Run false channel_group_mode [mixed_sources_module] ∅).2)).
  { vm_compute. reflexivity. }
  split; [exact Hrun |].
  apply (unchanged_flag_means_unchanged_module false channel_group_mode _ _ ∅ Hrun).
Defined.

Lemma run_preserves_matcher_answers_witness :
  Forall2 (fun c c' => forall select,
             MatchFoldableSelect c' select = MatchFoldableSelect c select)
    [nested_selects_module]
    (Run true channel_group_mode [nested_selects_module] ∅).2.
Proof.
  apply (run_preserves_matcher_answers true channel_group_mode
           [nested_selects_module] _ (Ok true) ∅).
  vm_compute. reflexivity.
Defined.

Lemma run_preserves_topological_order_witness :
  topological (fun x => x) uniform_true_module /\
  Forall (topological (fun x => x))
    (Run true channel_group_mode [uniform_true_module] ∅).2.
Proof.
  assert (Htop : topological (fun x => x) uniform_true_module).
  { topological_by_cases. }
  split; [exact Htop |].
  pose proof (run_preserves_topological_order true channel_group_mode
                [uniform_true_module]
                (Run true channel_group_mode [uniform_true_module] ∅).2
                (Ok true) ∅ ltac:(vm_compute; reflexivity)) as H.
  remember (Run true channel_group_mode [uniform_true_module] ∅).2 as m' eqn:Em.
  clear Em. inversion H as [| c c' rest rest' Hc Hrest]; subst.
  inversion Hrest; subst. constructor; [| constructor].
  apply Hc. exact Htop.
Defined.

Lemma failed_run_is_stable_witness :
  forallb no_nested_foldableb [failing_second_module] = true /\
  Run true channel_required_group_mode
    (Run true channel_required_group_mode [failing_second_module] ∅).2 ∅ =
  (Error (InvalidArgument "channel id required"),
   (Run true channel_required_group_mode [failing_second_module] ∅).2).
Proof.
  split; [reflexivity |].
  apply (failed_run_is_stable true channel_required_group_mode
           [failing_second_module] _ ∅ (InvalidArgument "channel id required")).
  - reflexivity.
  - vm_compute. reflexivity.
Defined.

Lemma run_never_faults_on_well_formed_witness :
  forallb well_formed [nested_selects_module] = true /\
  (Run false channel_group_mode [nested_selects_module] ∅).1 <> Abort BadAccess /\
  forallb well_formed (Run false channel_group_mode [nested_selects_module] ∅).2 = true.
Proof.
  split; [reflexivity |].
  destruct (run_never_faults_on_well_formed false channel_group_mode
              [nested_selects_module]
              (Run false channel_group_mode [nested_selects_module] ∅).2
              (Run false channel_group_mode [nested_selects_module] ∅).1 ∅
              eq_refl ltac:(vm_compute; reflexivity)) as (H1 & _ & H3).
  split; [exact H1 | exact H3].
Defined.

Lemma successful_run_rewires_pointwise_witness :
  rewired_operands true channel_group_mode nested_selects_module
    (permute_inst [7] [] (Some 1%Z) [(1, 0)]%Z) = [5] /\
  Forall2 (fun c c' =>
             forall p i, c !! p = Some i ->
               exists i', c' !! p = Some i' /\
                 operands i' = rewired_operands true channel_group_mode c i)
    [nested_selects_module]
    (Run true channel_group_mode [nested_selects_module] ∅).2.
Proof.
  split; [reflexivity |].
  apply (successful_run_rewires_pointwise true channel_group_mode
           [nested_selects_module] _ true ∅).
  vm_compute. reflexivity.
Defined.

Lemma two_senders_limit_the_answer_witness :
  StaticallyEvaluatePredicateForAllSourceIDs false
    (mkFoldableSelect kEq 0 kCrossPartition 3 4) [(0, 1); (1, 2)]%Z <>
  Ok (Some true).
Proof.
  apply (proj1 (two_senders_limit_the_answer false
                  (mkFoldableSelect kEq 0 kCrossPartition 3 4)
                  [(0, 1); (1, 2)]%Z (0, 1)%Z (1, 2)%Z
                  ltac:(now left) ltac:(right; now left) ltac:(discriminate))).
  reflexivity.
Defined.

Lemma uniform_predicate_folds_witness :
  exists c' cp',
    TryFoldColectivePermuteOfSelect false channel_group_mode 6
      (select_permute kPartitionId kEq 0 (Some 1%Z) [(1, 0); (2, 1)]%Z) =
      (Ok true, c') /\
    c' !! 6 = Some cp' /\ operands cp' = [4].
Proof.
  apply (uniform_predicate_folds false channel_group_mode
           (select_permute kPartitionId kEq 0 (Some 1%Z) [(1, 0); (2, 1)]%Z) 6 5
           (permute_inst [5] [] (Some 1%Z) [(1, 0); (2, 1)]%Z)
           (mkFoldableSelect kEq 0 kCrossPartition 3 4) false).
  - reflexivity.
  - reflexivity.
  - reflexivity.
  - shape_direct.
  - left. reflexivity.
  - reflexivity.
  - discriminate.
  - intros st_pair Hin.
    repeat (apply elem_of_cons in Hin as [-> | Hin]; [reflexivity |]).
    inversion Hin.
  - eexists. reflexivity.
Defined.
